(** * AGC video pipeline: timing allocation, motion filters, clip assembly

    A shallow embedding of the timing and compositing core of the pipeline:
    - [services/sync_service.py]    ([Sync]):   [SyncService.assign_timings];
    - [visual_engine/motion.py]     ([Motion]): [MotionEngine];
    - [visual_engine/sfx.py]        ([Sfx]):    [SFXEngine.generate_sfx];
    - [services/video_service.py]   ([Video]):  [VideoAssemblyService].

    Python floats are modelled by exact rationals ([Q]); equalities between
    computed durations are therefore stated with [==] ([Qeq]).  [Ieee]
    repeats the arithmetic on binary64 numbers, to compare the two on
    concrete inputs.  Calls to the external tools (ffmpeg, ffprobe, the file
    system) go through an abstract world, see [Proc]. *)

From Stdlib Require Import QArith Qround Qminmax Qabs ZArith Lia Lqa.
From Stdlib Require Import PrimFloat FloatOps SpecFloat.
From stdpp Require Import gmap strings list pretty.

Local Open Scope Q_scope.

(** ** Python numerics on rationals *)

Module Num.

(** [int(x)]: truncation toward zero. *)
Definition int_trunc (q : Q) : Z := Z.quot (Qnum q) (Zpos (Qden q)).

(** [float(n)] for a Python [int]. *)
Definition of_nat (n : nat) : Q := inject_Z (Z.of_nat n).

(** [x < y] and [x > y] on floats. *)
Definition ltb (x y : Q) : bool :=
  match Qcompare x y with Lt => true | _ => false end.
Definition gtb (x y : Q) : bool := ltb y x.

(** Nearest integer, ties to even: the rounding of [format(x, ".kf")]. *)
Definition round_half_even (q : Q) : Z :=
  let f := Qfloor q in
  let r := q - inject_Z f in
  match Qcompare r (1 # 2) with
  | Lt => f
  | Gt => (f + 1)%Z
  | Eq => if Z.even f then f else (f + 1)%Z
  end.

(** The number denoted by the text [f"{q:.kf}"]. *)
Definition fmt_dec (k : nat) (q : Q) : Q :=
  let scale := (10 ^ Z.of_nat k)%Z in
  Qred (Qmake (round_half_even (q * inject_Z scale)) (Z.to_pos scale)).

End Num.

(** ** A/V sync service *)

Module Sync.

(** [utils/models.py]: the data the sync service receives. *)
Record AudioChunk := mkAudioChunk {
  chunk_section_id : string;
  text : string;
  audio_path : string;
  duration_seconds : Q;
  start_time : Q;
}.

Record VisualMarker := mkVisualMarker {
  marker_type : string;     (* "screenshot" | "visual" | "title_card" *)
  marker_url : option string;
  marker_description : option string;
  marker_section_id : string;
  focus_text : option string;
}.

Record ScriptSection := mkScriptSection {
  script_section_id : string;
  section_type : string;    (* "intro" | "main" | "demo" | "conclusion" *)
  section_title : string;
  narration_text : string;
  visual_markers : list VisualMarker;
  estimated_duration_seconds : Q;
  section_start_time : Q;
}.

Record VideoScript := mkVideoScript {
  topic : string;
  title : string;
  sections : list ScriptSection;
  full_text : string;
  total_estimated_seconds : Q;
}.

Record VisualAsset := mkVisualAsset {
  section_id : string;
  asset_type : string;      (* "screenshot" | "title_card" | "generated" *)
  file_path : string;
  url : option string;
  description : string;
  display_start : Q;
  display_end : Q;
}.

Definition set_display_start (v : Q) (a : VisualAsset) : VisualAsset :=
  mkVisualAsset (section_id a) (asset_type a) (file_path a) (url a)
                (description a) v (display_end a).

Definition set_display_end (v : Q) (a : VisualAsset) : VisualAsset :=
  mkVisualAsset (section_id a) (asset_type a) (file_path a) (url a)
                (description a) (display_start a) v.

(** What the logger receives. *)
Inductive LogRecord :=
  | Warning_no_timing (section : string)
  | Info_assigned (total : nat).

(** The assets are Python objects that [assign_timings] mutates in place
    while several lists refer to them.  The heap holds the objects, lists
    hold references; object [r] is the [r]-th element of the
    [visual_assets] argument. *)
Record SyncState := mkSyncState {
  heap : list VisualAsset;
  assigned : list nat;
  logs : list LogRecord;
}.

(** [timing_map[chunk.section_id] = (start, start + duration)], a later
    chunk of the same section overwriting an earlier one. *)
Definition build_timing_map (audio_chunks : list AudioChunk)
  : gmap string (Q * Q) :=
  foldl (λ tm chunk,
           <[chunk_section_id chunk :=
               (start_time chunk, start_time chunk + duration_seconds chunk)]> tm)
        ∅ audio_chunks.

(** [by_section.setdefault(k, []).append(r)] on an insertion-ordered dict. *)
Fixpoint setdefault_append (d : list (string * list nat)) (k : string) (r : nat)
  : list (string * list nat) :=
  match d with
  | [] => [(k, [r])]
  | (k', rs) :: d' =>
      if decide (k' = k) then (k', rs ++ [r]) :: d'
      else (k', rs) :: setdefault_append d' k r
  end.

Definition group_by_section (h : list VisualAsset) (refs : list nat)
  : list (string * list nat) :=
  foldl (λ d r, match h !! r with
                | Some a => setdefault_append d (section_id a) r
                | None => d
                end) [] refs.

Definition has_type (h : list VisualAsset) (t : string) (r : nat) : bool :=
  match h !! r with
  | Some a => bool_decide (asset_type a = t)
  | None => false
  end.

(** [tc.display_start = ..; tc.display_end = ..; assigned.append(tc)] *)
Definition place (r : nat) (d_start d_end : Q) (st : SyncState) : SyncState :=
  mkSyncState
    (alter (set_display_end d_end) r (alter (set_display_start d_start) r (heap st)))
    (assigned st ++ [r])
    (logs st).

(** [for i, ss in enumerate(screenshots)], from index [i] on. *)
Fixpoint place_screenshots (content_start per_screenshot : Q) (i : nat)
    (screenshots : list nat) (st : SyncState) : SyncState :=
  match screenshots with
  | [] => st
  | ss :: rest =>
      place_screenshots content_start per_screenshot (S i) rest
        (place ss (content_start + Num.of_nat i * per_screenshot)
                  (content_start + Num.of_nat (i + 1) * per_screenshot) st)
  end.

(** [for tc in title_cards: tc.display_end = section_end] *)
Definition extend_title_cards (section_end : Q) (title_cards : list nat)
    (st : SyncState) : SyncState :=
  mkSyncState
    (foldl (λ h tc, alter (set_display_end section_end) tc h) (heap st) title_cards)
    (assigned st) (logs st).

(** One iteration of [for section_id, assets in by_section.items()]. *)
Definition process_section (timing_map : gmap string (Q * Q))
    (st : SyncState) (entry : string * list nat) : SyncState :=
  let '(sid, assets) := entry in
  match timing_map !! sid with
  | None =>
      mkSyncState (heap st) (assigned st) (logs st ++ [Warning_no_timing sid])
  | Some (section_start, section_end) =>
      let section_duration := section_end - section_start in
      let title_cards := filter (λ r, has_type (heap st) "title_card" r = true) assets in
      let screenshots := filter (λ r, has_type (heap st) "screenshot" r = true) assets in
      let title_duration := Qmin 3 (section_duration * 0.2) in
      let st1 :=
        foldl (λ s tc, place tc section_start (section_start + title_duration) s)
              st title_cards in
      match screenshots with
      | _ :: _ =>
          let content_start := section_start + title_duration in
          let content_end := section_end in
          let content_duration := content_end - content_start in
          let per_screenshot := content_duration / Num.of_nat (length screenshots) in
          place_screenshots content_start per_screenshot 0 screenshots st1
      | [] => extend_title_cards section_end title_cards st1
      end
  end.

(** [assigned.sort(key=lambda a: a.display_start)]: the sort is stable. *)
Fixpoint insert_by (key : nat → Q) (x : nat) (l : list nat) : list nat :=
  match l with
  | [] => [x]
  | y :: l' => if Qle_bool (key x) (key y) then x :: l else y :: insert_by key x l'
  end.

Definition sort_by (key : nat → Q) (l : list nat) : list nat :=
  foldr (insert_by key) [] l.

Definition start_key (h : list VisualAsset) (r : nat) : Q :=
  match h !! r with Some a => display_start a | None => 0 end.

(** The state when [assign_timings] returns: [assigned] is the returned
    list, [heap] the objects as the caller now sees them.  The method does
    not read its [script] argument. *)
Definition assign_timings (script : VideoScript) (audio_chunks : list AudioChunk)
    (visual_assets : list VisualAsset) : SyncState :=
  let timing_map := build_timing_map audio_chunks in
  let by_section := group_by_section visual_assets (seq 0 (length visual_assets)) in
  let st := foldl (process_section timing_map)
                  (mkSyncState visual_assets [] []) by_section in
  let sorted := sort_by (start_key (heap st)) (assigned st) in
  mkSyncState (heap st) sorted (logs st ++ [Info_assigned (length sorted)]).

(** The returned list, as values. *)
Definition returned (st : SyncState) : list VisualAsset :=
  omap (λ r, heap st !! r) (assigned st).

Definition window (a : VisualAsset) : Q * Q := (display_start a, display_end a).

(** *** Reading the input and the result *)

Definition set_window (d_start d_end : Q) (a : VisualAsset) : VisualAsset :=
  set_display_end d_end (set_display_start d_start a).

Definition section_of (h : list VisualAsset) (r : nat) : option string :=
  section_id <$> h !! r.

(** The assets of a section, in the order of the input list. *)
Definition section_refs (h : list VisualAsset) (sid : string) : list nat :=
  filter (λ r, section_of h r = Some sid) (seq 0 (length h)).

Definition tcs_in (h : list VisualAsset) (rs : list nat) : list nat :=
  filter (λ r, has_type h "title_card" r = true) rs.

Definition sss_in (h : list VisualAsset) (rs : list nat) : list nat :=
  filter (λ r, has_type h "screenshot" r = true) rs.


Definition screenshots_of (h : list VisualAsset) (sid : string) : list nat :=
  sss_in h (section_refs h sid).

(** [min(3.0, section_duration * 0.2)] for the section [[s, e)]. *)
Definition title_duration (s e : Q) : Q := Qmin 3 ((e - s) * 0.2).

(** What one section appends to [assigned] and to the log. *)
Definition sec_assigned (tm : gmap string (Q * Q)) (h : list VisualAsset)
    (entry : string * list nat) : list nat :=
  match tm !! entry.1 with
  | Some _ => tcs_in h entry.2 ++ sss_in h entry.2
  | None => []
  end.

Definition sec_logs (tm : gmap string (Q * Q)) (entry : string * list nat)
  : list LogRecord :=
  match tm !! entry.1 with
  | Some _ => []
  | None => [Warning_no_timing entry.1]
  end.

(** References in non-decreasing order of their key. *)
Fixpoint keys_sorted (key : nat → Q) (l : list nat) : Prop :=
  match l with
  | [] => True
  | x :: l' => Forall (λ y, key x <= key y) l' ∧ keys_sorted key l'
  end.

(** The fields [assign_timings] never writes. *)
Definition static (a : VisualAsset)
  : string * string * string * option string * string :=
  (section_id a, asset_type a, file_path a, url a, description a).

Definition same_static (h h' : list VisualAsset) : Prop :=
  ∀ r, static <$> h' !! r = static <$> h !! r.

(** Groups with distinct keys, each holding distinct assets of its section. *)
Definition groups_ok (h : list VisualAsset) (G : list (string * list nat)) : Prop :=
  NoDup G.*1 ∧
  ∀ k rs, (k, rs) ∈ G → NoDup rs ∧ ∀ r, r ∈ rs → section_of h r = Some k.

(** The windows of the returned assets of a section, in returned order. *)
Definition section_windows (st : SyncState) (sid : string) : list (Q * Q) :=
  window <$> filter (λ a, section_id a = sid) (returned st).

(** Display windows are half-open intervals. *)
Definition in_window (t : Q) (w : Q * Q) : Prop := w.1 <= t ∧ t < w.2.

Definition disjoint_windows (w1 w2 : Q * Q) : Prop :=
  ∀ t, ¬ (in_window t w1 ∧ in_window t w2).

Fixpoint pairwise_disjoint (ws : list (Q * Q)) : Prop :=
  match ws with
  | [] => True
  | w :: ws' => Forall (disjoint_windows w) ws' ∧ pairwise_disjoint ws'
  end.

Fixpoint sorted_by_start (ws : list (Q * Q)) : Prop :=
  match ws with
  | [] => True
  | w :: ws' => Forall (λ w', w.1 <= w'.1) ws' ∧ sorted_by_start ws'
  end.


(** The window of the [j]-th screenshot. *)
Definition screenshot_window (content_start per_screenshot : Q) (j : nat) : Q * Q :=
  (content_start + Num.of_nat j * per_screenshot,
   content_start + Num.of_nat (j + 1) * per_screenshot).


End Sync.


(** ** External processes, files and logging *)

Module Proc.

(** The text of an f-string: literal pieces and interpolated numbers.
    [Dec k q] is [{q:.kf}], [Flt q] is [{q}] or [str(q)] of a float,
    [Int z] the same of an int. *)
Inductive Piece :=
  | Lit (s : string)
  | Int (z : Z)
  | Flt (q : Q)
  | Dec (k : nat) (q : Q).

Definition Text := list Piece.

(** [sep.join(parts)] *)
Fixpoint join (sep : string) (parts : list Text) : Text :=
  match parts with
  | [] => []
  | [p] => p
  | p :: rest => p ++ Lit sep :: join sep rest
  end.

(** [s[-n:]] *)
Definition last_chars (n : nat) (s : string) : string :=
  String.substring (String.length s - n) n s.

Record ProcResult := mkProcResult {
  returncode : Z;
  stdout : string;
  stderr : string;
}.

(** Everything outside the Python process. *)
Record Env := mkEnv {
  World : Type;
  (** [Path.exists()] *)
  path_exists : World → string → bool;
  (** [asyncio.create_subprocess_exec] followed by [communicate()] *)
  run_process : list Text → World → ProcResult * World;
  (** [shutil.copy(src, dst)] *)
  copy_file : string → string → World → World;
  (** [float(s.strip())]; [None] when it raises [ValueError] *)
  parse_float : string → option Q;
}.

Inductive Level := DEBUG | INFO | WARNING.

Record LogRecord := mkLog { level : Level; message : Text }.

Inductive Exn :=
  | RuntimeError (msg : Text)
  | KeyError (key : string).

Inductive Outcome (A : Type) :=
  | Ok (a : A)
  | Raise (e : Exn).
Arguments Ok {A} a.
Arguments Raise {A} e.

Record PState (E : Env) := mkPState {
  world : World E;
  trace : list (list Text);     (* the subprocesses started, oldest first *)
  log : list LogRecord;
}.
Arguments mkPState {E} _ _ _.
Arguments world {E} _.
Arguments trace {E} _.
Arguments log {E} _.

Definition M (E : Env) (A : Type) : Type := PState E → Outcome A * PState E.

Definition ret {E A} (a : A) : M E A := λ st, (Ok a, st).

Definition bind {E A B} (m : M E A) (k : A → M E B) : M E B :=
  λ st, match m st with
        | (Ok a, st') => k a st'
        | (Raise e, st') => (Raise e, st')
        end.

Definition raise {E A} (e : Exn) : M E A := λ st, (Raise e, st).

Definition exists_ {E} (p : string) : M E bool :=
  λ st, (Ok (path_exists E (world st) p), st).

Definition subprocess {E} (cmd : list Text) : M E ProcResult :=
  λ st, let '(r, w) := run_process E cmd (world st) in
        (Ok r, mkPState w (trace st ++ [cmd]) (log st)).

Definition shutil_copy {E} (src dst : string) : M E unit :=
  λ st, (Ok tt, mkPState (copy_file E src dst (world st)) (trace st) (log st)).

Definition logger {E} (lvl : Level) (msg : Text) : M E unit :=
  λ st, (Ok tt, mkPState (world st) (trace st) (log st ++ [mkLog lvl msg])).

(** What a call added to the trace and to the log. *)
Definition new_trace {E} (st st' : PState E) : list (list Text) :=
  drop (length (trace st)) (trace st').

Definition new_log {E} (st st' : PState E) : list LogRecord :=
  drop (length (log st)) (log st').

Definition is_warning (r : LogRecord) : bool :=
  match level r with WARNING => true | _ => false end.

Definition warned {E} (st st' : PState E) : bool :=
  existsb is_warning (new_log st st').

End Proc.

#[global] Instance M_ret E : MRet (Proc.M E) := λ A, Proc.ret.
#[global] Instance M_bind E : MBind (Proc.M E) := λ A B k m, Proc.bind m k.

(** ** Motion and atmosphere engine *)

Module Motion.
Import Proc.

Record Preset := mkPreset {
  zoom_start : Q;
  zoom_end : Q;
  pan_x_start : Z;
  pan_x_end : Z;
  pan_y_start : Z;
  pan_y_end : Z;
}.

Definition MOTION_PRESETS : gmap string Preset :=
  list_to_map [
    ("slow_push_in",   mkPreset 1.0  1.08 0 0 0 0);
    ("slow_pull_out",  mkPreset 1.08 1.0  0 0 0 0);
    ("drift_left",     mkPreset 1.05 1.05 30 (-30) 0 0);
    ("drift_right",    mkPreset 1.05 1.05 (-30) 30 0 0);
    ("diagonal_float", mkPreset 1.03 1.08 (-20) 20 (-15) 15);
    ("pendulum_sway",  mkPreset 1.02 1.02 (-15) 15 0 0);
    ("static",         mkPreset 1.0  1.0  0 0 0 0)
  ].

Record MotionEngine := mkMotionEngine {
  width : Z;
  height : Z;
  fps : Z;
  codec : string;
  preset : string;
}.

Definition total_frames (self : MotionEngine) (duration : Q) : Z :=
  Z.max 1 (Num.int_trunc (duration * inject_Z (fps self))).

(** The [zoom_expr] of [_build_motion_filter]. *)
Definition zoom_expr (self : MotionEngine) (p : Preset) (duration intensity : Q)
  : Text :=
  let zs := zoom_start p in
  let ze := zoom_end p in
  let zoom_range := (ze - zs) * intensity in
  let ze := zs + zoom_range in
  if Num.ltb (Qabs (ze - zs)) 0.001 then [Dec 4 zs]
  else [Dec 4 zs; Lit "+";
        Dec 8 ((ze - zs) / inject_Z (total_frames self duration)); Lit "*on"].

(** [x_expr] and [y_expr]: [axis] is "iw" or "ih". *)
Definition pan_expr (axis : string) (ps pe tf : Z) : Text :=
  if negb (ps =? pe)%Z
  then [Lit axis; Lit "/2-("; Lit axis; Lit "/zoom/2)+"; Int ps; Lit "+";
        Int (pe - ps); Lit "/"; Int tf; Lit "*on"]
  else [Lit axis; Lit "/2-("; Lit axis; Lit "/zoom/2)"].

Definition even_up (z : Z) : Z := (z + z mod 2)%Z.

Definition _build_motion_filter (self : MotionEngine) (p : Preset)
    (duration intensity : Q) : Text :=
  let w := width self in
  let h := height self in
  let tf := total_frames self duration in
  let zs := zoom_start p in
  let ze := zs + (zoom_end p - zs) * intensity in
  let pxs := Num.int_trunc (inject_Z (pan_x_start p) * intensity) in
  let pxe := Num.int_trunc (inject_Z (pan_x_end p) * intensity) in
  let pys := Num.int_trunc (inject_Z (pan_y_start p) * intensity) in
  let pye := Num.int_trunc (inject_Z (pan_y_end p) * intensity) in
  let scale_w := even_up (Num.int_trunc (inject_Z w * Qmax zs ze * 1.1)) in
  let scale_h := even_up (Num.int_trunc (inject_Z h * Qmax zs ze * 1.1)) in
  [Lit "scale="; Int scale_w; Lit ":"; Int scale_h;
   Lit ":force_original_aspect_ratio=decrease,";
   Lit "pad="; Int scale_w; Lit ":"; Int scale_h; Lit ":(ow-iw)/2:(oh-ih)/2:black,";
   Lit "zoompan=z='"]
  ++ zoom_expr self p duration intensity
  ++ [Lit "':x='"] ++ pan_expr "iw" pxs pxe tf
  ++ [Lit "':y='"] ++ pan_expr "ih" pys pye tf
  ++ [Lit "':"; Lit "d="; Int tf; Lit ":s="; Int w; Lit "x"; Int h;
      Lit ":fps="; Int (fps self)].

Definition glitch_test (i : Q) : Text :=
  [Lit "if(between(mod(T,0.5),0,0.03*"; Dec 2 i; Lit "),"].

Definition _build_atmosphere_filter (atmosphere : string) (duration intensity : Q)
  : Text :=
  if bool_decide (atmosphere = "none") || bool_decide (atmosphere = "") then []
  else
    let i := Qmax 0.05 (Qmin 1.0 intensity) in
    if bool_decide (atmosphere = "flicker") then
      [Lit "eq=brightness='sin(t*7)*"; Dec 3 (0.08 * i); Lit "'"]
    else if bool_decide (atmosphere = "glitch_flicker") then
      [Lit "geq=r='p(X,Y)+"] ++ glitch_test i ++ [Lit "30,0)':";
       Lit "g='p(X,Y)+"] ++ glitch_test i ++ [Lit "30,0)':";
       Lit "b='p(X,Y)+"] ++ glitch_test i ++ [Lit "50,0)'"]
    else if bool_decide (atmosphere = "vhs_wobble") then
      let amp := Num.int_trunc (8 * i) in
      [Lit "hue=h='sin(t*20)*"; Dec 2 i; Lit "'&geq=r='p(X+"; Int amp;
       Lit "*sin(T*15+Y/50),Y)':g='p(X,Y)':b='p(X-"; Int (amp / 2)%Z;
       Lit "*sin(T*15+Y/50),Y)'"]
    else if bool_decide (atmosphere = "vignette_pulse") then
      [Lit "vignette=angle=PI/4,eq=brightness='sin(t*3)*"; Dec 3 (0.05 * i);
       Lit "-0.02'"]
    else if bool_decide (atmosphere = "chromatic_drift") then
      [Lit "split=3[r][g][b];";
       Lit "[r]lutrgb=r='val':g=0:b=0[r1];";
       Lit "[g]lutrgb=r=0:g='val':b=0[g1];";
       Lit "[b]lutrgb=r=0:g=0:b='val'[b1];";
       Lit "[r1][g1]blend=all_mode=addition[rg];";
       Lit "[rg][b1]blend=all_mode=addition"]
    else [].

Definition static_filter (self : MotionEngine) : Text :=
  [Lit "scale="; Int (width self); Lit ":"; Int (height self);
   Lit ":force_original_aspect_ratio=decrease,pad="; Int (width self); Lit ":";
   Int (height self); Lit ":(ow-iw)/2:(oh-ih)/2:black"].

(** The argument vector both ffmpeg calls of the engine share. *)
Definition clip_cmd (self : MotionEngine) (frame_path output_path : string)
    (duration : Q) (vf : Text) : list Text :=
  [[Lit "ffmpeg"]; [Lit "-y"]; [Lit "-loop"]; [Lit "1"];
   [Lit "-framerate"]; [Int (fps self)];
   [Lit "-i"]; [Lit frame_path];
   [Lit "-vf"]; vf;
   [Lit "-t"]; [Flt duration];
   [Lit "-c:v"]; [Lit (codec self)];
   [Lit "-preset"]; [Lit (preset self)];
   [Lit "-pix_fmt"]; [Lit "yuv420p"];
   [Lit output_path]].

(** The [vf] of [render_animated_clip]: the motion filter, followed by the
    atmosphere filter when there is one. *)
Definition clip_filter (self : MotionEngine) (preset_vals : Preset)
    (duration : Q) (atmosphere : string) (intensity : Q) : Text :=
  let vf := _build_motion_filter self preset_vals duration intensity in
  let atm_filter := _build_atmosphere_filter atmosphere duration intensity in
  match atm_filter with
  | [] => vf
  | _ => vf ++ Lit "," :: atm_filter
  end.

Definition _static_fallback {E} (self : MotionEngine)
    (frame_path output_path : string) (duration : Q) : M E unit :=
  subprocess (clip_cmd self frame_path output_path duration (static_filter self)) ;;
  mret tt.

Definition render_animated_clip {E} (self : MotionEngine)
    (frame_path output_path : string) (duration : Q)
    (motion atmosphere : string) (intensity : Q) : M E string :=
  cached ← exists_ output_path;
  if cached : bool then mret output_path else
  let motion := if bool_decide (is_Some (MOTION_PRESETS !! motion))
                then motion else "slow_push_in" in
  match MOTION_PRESETS !! motion with
  | None => raise (KeyError motion)
  | Some preset_vals =>
      let vf := clip_filter self preset_vals duration atmosphere intensity in
      proc ← subprocess (clip_cmd self frame_path output_path duration vf);
      (if negb (returncode proc =? 0)%Z
       then logger WARNING [Lit "[Motion] FFmpeg error: ";
                            Lit (last_chars 500 (stderr proc))] ;;
            _static_fallback self frame_path output_path duration
       else mret tt) ;;
      mret output_path
  end.



End Motion.

(** ** Sound effects engine *)

Module Sfx.
Import Proc.

Record SfxDef := mkSfxDef { lavfi : string; sfx_duration : Q }.

Definition SFX_LIBRARY : gmap string SfxDef :=
  list_to_map [
    ("whoosh_soft", mkSfxDef "anoisesrc=d=0.4:c=pink:r=44100:a=0.4,highpass=f=800,lowpass=f=4000,afade=in:st=0:d=0.05,afade=out:st=0.3:d=0.1" 0.4);
    ("whoosh_sharp", mkSfxDef "anoisesrc=d=0.3:c=white:r=44100:a=0.5,highpass=f=2000,lowpass=f=8000,afade=in:st=0:d=0.02,afade=out:st=0.25:d=0.05" 0.3);
    ("glitch_burst", mkSfxDef "anoisesrc=d=0.15:c=white:r=44100:a=0.7,highpass=f=3000,lowpass=f=12000,aphaser=in_gain=0.9:out_gain=0.8:delay=3:speed=5" 0.15);
    ("film_click", mkSfxDef "anoisesrc=d=0.06:c=white:r=44100:a=0.9,highpass=f=5000,afade=out:st=0.03:d=0.03" 0.06);
    ("impact_thud", mkSfxDef "sine=f=60:d=0.3:r=44100,volume=0.8,afade=out:st=0.1:d=0.2" 0.3);
    ("power_up", mkSfxDef "sine=f='250+t*300':d=0.5:r=44100,afade=in:st=0:d=0.05,afade=out:st=0.4:d=0.1" 0.5);
    ("swoosh", mkSfxDef "anoisesrc=d=0.25:c=pink:r=44100:a=0.6,highpass=f=1500,lowpass=f=6000,afade=in:st=0:d=0.02,afade=out:st=0.2:d=0.05" 0.25);
    ("typing_tick", mkSfxDef "anoisesrc=d=0.04:c=white:r=44100:a=0.4,highpass=f=4000,afade=out:st=0.02:d=0.02" 0.04);
    ("counter_tick", mkSfxDef "sine=f=800:d=0.05:r=44100,volume=0.5,afade=out:st=0.02:d=0.03" 0.05);
    ("scan_beep", mkSfxDef "sine=f=1200:d=0.1:r=44100,volume=0.4,afade=in:st=0:d=0.01,afade=out:st=0.08:d=0.02" 0.1);
    ("notification_ping", mkSfxDef "sine=f=1400:d=0.08:r=44100,sine=f=1800:d=0.08:r=44100,amix=inputs=2,afade=out:st=0.05:d=0.03" 0.08);
    ("hum_tech", mkSfxDef "sine=f=60:d=4:r=44100,volume=0.15,aecho=0.5:0.5:100:0.3" 4.0);
    ("light_static", mkSfxDef "anoisesrc=d=4:c=pink:r=44100:a=0.08,lowpass=f=600" 4.0)
  ].

Record Style := mkStyle { volume : Q; ambient_volume : Q }.

Definition SFX_STYLES : gmap string Style :=
  list_to_map [
    ("subtle",   mkStyle 0.06 0.02);
    ("medium",   mkStyle 0.12 0.04);
    ("dramatic", mkStyle 0.22 0.07)
  ].

Record SFXEngine := mkSFXEngine {
  sfx_dir : string;
  style : Style;
  sfx_enabled : bool;
  ambient_enabled : bool;
}.

(** [SFXEngine(sfx_dir, style, ...)]: an unknown style name means "subtle". *)
Definition new_engine (dir style_name : string) (sfx ambient : bool) : SFXEngine :=
  mkSFXEngine dir
    (default (mkStyle 0.06 0.02) (SFX_STYLES !! style_name)) sfx ambient.

(** [dir / name] *)
Definition path_join (dir name : string) : string := dir +:+ "/" +:+ name.

(** [volume_override or self.style["volume"]]: [None] and [0.0] are falsy. *)
Definition volume_or (volume_override : option Q) (fallback : Q) : Q :=
  match volume_override with
  | Some v => if Qeq_bool v 0 then fallback else v
  | None => fallback
  end.

Definition sfx_out (self : SFXEngine) (sfx_name : string) : string :=
  path_join (sfx_dir self) (sfx_name +:+ ".wav").

Definition generate_sfx {E} (self : SFXEngine) (sfx_name : string)
    (volume_override : option Q) : M E (option string) :=
  let out := sfx_out self sfx_name in
  cached ← exists_ out;
  if cached : bool then mret (Some out) else
  match SFX_LIBRARY !! sfx_name with
  | None =>
      logger WARNING [Lit "[SFX] Unknown SFX: "; Lit sfx_name] ;;
      mret None
  | Some sfx =>
      let vol := volume_or volume_override (volume (style self)) in
      proc ← subprocess
        [[Lit "ffmpeg"]; [Lit "-y"];
         [Lit "-f"]; [Lit "lavfi"];
         [Lit "-i"]; [Lit (lavfi sfx)];
         [Lit "-t"]; [Flt (sfx_duration sfx)];
         [Lit "-af"]; [Lit "volume="; Flt vol];
         [Lit "-ar"]; [Lit "44100"];
         [Lit "-ac"]; [Lit "2"];
         [Lit out]];
      if negb (returncode proc =? 0)%Z
      then logger WARNING [Lit "[SFX] Failed to generate "; Lit sfx_name; Lit ": ";
                           Lit (last_chars 300 (stderr proc))] ;;
           mret None
      else mret (Some out)
  end.

End Sfx.

(** ** Video assembly service *)

Module Video.
Import Proc.

(** [config/loader.py] is not among the sources; these are the attributes
    of [RuntimeConfig] that the methods below read. *)
Record RuntimeConfig := mkRuntimeConfig {
  temp_dir : string;
  output_dir : string;
  video_codec : string;
  ffmpeg_preset : string;
  transition_duration : Q;
  transition_type : string;
  quality_checks_enabled : bool;
  max_sync_drift_sec : Q;
}.

(** [self.temp_dir = Path(cfg.temp_dir) / "assembly"] *)
Definition assembly_dir (cfg : RuntimeConfig) : string :=
  Sfx.path_join (temp_dir cfg) "assembly".

Definition newline : string := String (Ascii.ascii_of_nat 10) EmptyString.

Definition ffmpeg_cmd (args : list Text) : list Text :=
  [Lit "ffmpeg"] :: [Lit "-y"] :: args.

Definition _ffmpeg {E} (args : list Text) : M E unit :=
  let cmd := ffmpeg_cmd args in
  logger DEBUG ([Lit "[Video] "] ++ join " " (take 8 cmd) ++ [Lit "..."]) ;;
  proc ← subprocess cmd;
  if negb (returncode proc =? 0)%Z
  then raise (RuntimeError [Lit "FFmpeg failed:"; Lit newline;
                            Lit (last_chars 2000 (stderr proc))])
  else mret tt.

Definition probe_cmd (path : string) : list Text :=
  [[Lit "ffprobe"]; [Lit "-v"]; [Lit "quiet"];
   [Lit "-show_entries"]; [Lit "format=duration"];
   [Lit "-of"]; [Lit "default=noprint_wrappers=1:nokey=1"]; [Lit path]].

Definition _duration {E} (path : string) : M E Q :=
  proc ← subprocess (probe_cmd path);
  mret (match parse_float E (stdout proc) with
        | Some x => x
        | None => 0.0
        end).

(** What [_duration path] returns in world [w]. *)
Definition probed (E : Env) (w : World E) (path : string) : Q :=
  match parse_float E (stdout (run_process E (probe_cmd path) w).1) with
  | Some x => x
  | None => 0.0
  end.

(** One [parts.append(...)] of [_xfade]; [xf_offset] is the value of [cum]
    that the text shows as [{cum:.3f}]. *)
Record XfadePart := mkXfadePart {
  xf_prev : Text;
  xf_index : nat;
  xf_transition : string;
  xf_duration : Q;
  xf_offset : Q;
  xf_next : Text;
}.

Definition part_text (p : XfadePart) : Text :=
  xf_prev p ++ [Lit "["; Int (Z.of_nat (xf_index p)); Lit ":v]xfade=transition=";
                Lit (xf_transition p); Lit ":duration="; Flt (xf_duration p);
                Lit ":offset="; Dec 3 (xf_offset p)] ++ xf_next p.

(** The number ffmpeg reads as the offset of a part. *)
Definition offset_value (p : XfadePart) : Q := Num.fmt_dec 3 (xf_offset p).

Definition xf_label (i : nat) : Text := [Lit "[xf"; Int (Z.of_nat i); Lit "]"].

Record XfadeLoop := mkXfadeLoop {
  parts : list XfadePart;
  prev : Text;
  cum : Q;
}.

(** The body of [for i in range(1, len(clips))]. *)
Definition xfade_step (cfg : RuntimeConfig) (clips : list (string * Q))
    (s : XfadeLoop) (i : nat) : XfadeLoop :=
  let td := transition_duration cfg in
  let tt := transition_type cfg in
  let cum := cum s + (default 0 (snd <$> clips !! (i - 1)%nat) - td) in
  let nxt := if (i <? length clips - 1)%nat then xf_label i else [Lit "[vout]"] in
  mkXfadeLoop (parts s ++ [mkXfadePart (prev s) i tt td cum nxt]) (xf_label i) cum.

Definition xfade_parts (cfg : RuntimeConfig) (clips : list (string * Q))
  : list XfadePart :=
  parts (foldl (xfade_step cfg clips) (mkXfadeLoop [] [Lit "[0:v]"] 0.0)
               (seq 1 (length clips - 1))).

Definition _xfade {E} (cfg : RuntimeConfig) (clips : list (string * Q))
    (stem : string) : M E string :=
  let out := Sfx.path_join (assembly_dir cfg) (stem +:+ "_clips_concat.mp4") in
  cached ← exists_ out;
  if cached : bool then mret out else
  match clips with
  | [(p, _)] => shutil_copy p out ;; mret out
  | _ =>
      let inputs := concat (map (λ c, [[Lit "-i"]; [Lit (fst c)]]) clips) in
      _ffmpeg (inputs ++
               [[Lit "-filter_complex"];
                join ";" (map part_text (xfade_parts cfg clips));
                [Lit "-map"]; [Lit "[vout]"];
                [Lit "-c:v"]; [Lit (video_codec cfg)];
                [Lit "-preset"]; [Lit (ffmpeg_preset cfg)];
                [Lit "-pix_fmt"]; [Lit "yuv420p"]; [Lit out]]) ;;
      mret out
  end.

Definition trim_args (src : string) (target : Q) (out : string) : list Text :=
  [[Lit "-i"]; [Lit src]; [Lit "-t"]; [Flt target];
   [Lit "-c"]; [Lit "copy"]; [Lit out]].

Definition pad_args (cfg : RuntimeConfig) (src : string) (gap : Q) (out : string)
  : list Text :=
  [[Lit "-i"]; [Lit src];
   [Lit "-vf"]; [Lit "tpad=stop_mode=clone:stop_duration="; Flt gap];
   [Lit "-c:v"]; [Lit (video_codec cfg)];
   [Lit "-pix_fmt"]; [Lit "yuv420p"]; [Lit out]].

Definition _trim_pad {E} (cfg : RuntimeConfig) (src : string) (target : Q)
    (out : string) : M E unit :=
  actual ← _duration src;
  if Num.ltb (Qabs (actual - target)) 0.1 then shutil_copy src out
  else if Num.gtb actual target then _ffmpeg (trim_args src target out)
  else _ffmpeg (pad_args cfg src (target - actual) out).

Definition drift_warning (cfg : RuntimeConfig) (drift : Q) : Text :=
  [Lit "[Video] Sync drift "; Dec 2 drift; Lit "s exceeds threshold ";
   Flt (max_sync_drift_sec cfg); Lit "s"].

(** [assemble] from the line after [await self._mux(...)] to its [return]:
    [out] is the muxed file and [total_dur] the sum of the chunk durations. *)
Definition assemble_after_mux {E} (cfg : RuntimeConfig) (out : string)
    (total_dur : Q) : M E string :=
  actual ← _duration out;
  let drift := Qabs (actual - total_dur) in
  logger INFO [Lit "[Video] Done: "; Lit out; Lit " | "; Dec 1 actual;
               Lit "s (drift: "; Dec 2 drift; Lit "s)"] ;;
  (if quality_checks_enabled cfg && Num.gtb drift (max_sync_drift_sec cfg)
   then logger WARNING (drift_warning cfg drift)
   else mret tt) ;;
  mret out.

(** The total length of some clips, [d0 + d1 + ...]. *)
Definition sum_durations (clips : list (string * Q)) : Q :=
  foldr (λ c acc, snd c + acc) 0 clips.

(** [sum(c.duration_seconds for c in audio_chunks)] *)
Definition total_dur (audio_chunks : list Sync.AudioChunk) : Q :=
  foldl (λ acc c, acc + Sync.duration_seconds c) 0 audio_chunks.

End Video.

(** ** The arithmetic on binary64 floats *)

Module Ieee.

#[local] Set Warnings "-inexact-float".

(** The rational a finite float stands for. *)
Definition to_Q (f : float) : option Q :=
  match Prim2SF f with
  | S754_zero _ => Some 0
  | S754_finite s m e =>
      let n := if s then Z.neg m else Z.pos m in
      Some (if (0 <=? e)%Z then inject_Z (n * 2 ^ e)
            else Qmake n (Z.to_pos (2 ^ (- e))))
  | _ => None
  end.

(** The number denoted by the text [f"{f:.kf}"]: Python prints the exact
    value of the float, rounded to [k] decimals. *)
Definition printed (k : nat) (f : float) : option Q := Num.fmt_dec k <$> to_Q f.

(** [min(a, b)] *)
Definition min (a b : float) : float := if PrimFloat.ltb b a then b else a.

(** [assemble]: [abs(actual - total_dur) > max_sync_drift_sec] *)
Definition drift_exceeds (actual total_dur max_sync_drift_sec : float) : bool :=
  PrimFloat.ltb max_sync_drift_sec (PrimFloat.abs (actual - total_dur)%float).

(** [_xfade]: the values [cum] takes, [durations] being those of all clips
    but the last. *)
Fixpoint xfade_cums (cum td : float) (durations : list float) : list float :=
  match durations with
  | [] => []
  | d :: rest => let cum := (cum + (d - td))%float in cum :: xfade_cums cum td rest
  end.

(** [_build_motion_filter]: the test on the zoom range and the slope. *)
Definition zoom_is_constant (zs ze intensity : float) : bool :=
  let ze := (zs + (ze - zs) * intensity)%float in
  PrimFloat.ltb (PrimFloat.abs (ze - zs)%float) 0.001%float.

Definition zoom_slope (zs ze intensity total_frames : float) : float :=
  let ze := (zs + (ze - zs) * intensity)%float in
  ((ze - zs) / total_frames)%float.

(** [assign_timings]: the title card's end and the [i]-th screenshot window
    of a section [[s, e)] with [n] screenshots. *)
Definition title_end (s e : float) : float :=
  (s + min 3.0 ((e - s) * 0.2))%float.

Definition screenshot_window (s e n i : float) : float * float :=
  let content_start := title_end s e in
  let per_screenshot := ((e - content_start) / n)%float in
  ((content_start + i * per_screenshot)%float,
   (content_start + (i + 1) * per_screenshot)%float).

End Ieee.

(** ** A small world to run the services in *)

Module Demo.
Import Proc.

(** The files that exist, each with the text ffprobe prints for it. *)
Definition Files := list (string * string).

Definition last_arg (cmd : list Text) : string :=
  match last cmd with
  | Some [Lit p] => p
  | _ => ""
  end.

Definition is_probe (cmd : list Text) : bool :=
  match cmd with
  | [Lit "ffprobe"] :: _ => true
  | _ => false
  end.

Definition printed (w : Files) (p : string) : string :=
  default "" ((list_to_map w : gmap string string) !! p).

(** ffprobe prints what the world holds; any other tool succeeds and
    writes its last argument. *)
Definition run (cmd : list Text) (w : Files) : ProcResult * Files :=
  if is_probe cmd then (mkProcResult 0 (printed w (last_arg cmd)) "", w)
  else (mkProcResult 0 "" "", (last_arg cmd, "") :: w).

Definition parse (s : string) : option Q :=
  if bool_decide (s = "61.3") then Some 61.3
  else if bool_decide (s = "58.5") then Some 58.5
  else if bool_decide (s = "60.05") then Some 60.05
  else if bool_decide (s = "15.0") then Some 15.0
  else None.

Definition env : Env :=
  mkEnv Files
        (λ w p, bool_decide (p ∈ w.*1))
        run
        (λ src dst w, (dst, printed w src) :: w)
        parse.

Definition start (w : Files) : PState env := mkPState (w : World env) [] [].

Definition cfg : Video.RuntimeConfig :=
  Video.mkRuntimeConfig "/tmp" "/out" "libx264" "fast" 0.5 "fade" true 1.0.

Definition engine : Motion.MotionEngine :=
  Motion.mkMotionEngine 1920 1080 30 "libx264" "fast".

Definition script : Sync.VideoScript :=
  Sync.mkVideoScript "topic" "title" [] "" 0.

Definition chunk (sid : string) (start duration : Q) : Sync.AudioChunk :=
  Sync.mkAudioChunk sid "" "" duration start.

Definition asset (sid type file : string) : Sync.VisualAsset :=
  Sync.mkVisualAsset sid type file None "" 0 0.

End Demo.

(** ** Automatic selection ([visual_engine/motion.py], module level) *)

Module MotionAuto.

Definition SECTION_MOTION_MAP : gmap string string :=
  list_to_map [
    ("intro",      "slow_push_in");
    ("main",       "drift_left");
    ("demo",       "slow_pull_out");
    ("deep_dive",  "diagonal_float");
    ("comparison", "static");
    ("conclusion", "slow_pull_out")
  ].

Definition TEMPLATE_ATMOSPHERE_MAP : gmap string string :=
  list_to_map [
    ("typewriter_reveal", "flicker");
    ("glitch_drop",       "glitch_flicker");
    ("neon_pulse",        "vignette_pulse");
    ("browser_mockup",    "none");
    ("dashboard_reveal",  "none");
    ("hologram_flicker",  "chromatic_drift");
    ("matrix_rain",       "vhs_wobble");
    ("counter_ticker",    "vignette_pulse");
    ("bar_race",          "none");
    ("film_burn",         "vhs_wobble")
  ].

Definition auto_select_motion (section_type asset_type : string) : string :=
  if bool_decide (asset_type = "title_card")
  then default "slow_push_in" (SECTION_MOTION_MAP !! section_type)
  else "drift_left".

Definition auto_select_atmosphere (template_name section_type : string) : string :=
  default "none" (TEMPLATE_ATMOSPHERE_MAP !! template_name).

(** The atmosphere names [_build_atmosphere_filter] has a branch for. *)
Definition known_atmospheres : list string :=
  ["flicker"; "glitch_flicker"; "vhs_wobble"; "vignette_pulse"; "chromatic_drift"].

End MotionAuto.

(** ** Template selector ([visual_engine/selector.py]) *)

Module Selector.

Definition SECTION_TEMPLATE_MAP : gmap (string * string) string :=
  list_to_map [
    (("intro", "title_card"),      "neon_pulse");
    (("main", "title_card"),       "split_reveal");
    (("demo", "title_card"),       "typewriter_reveal");
    (("deep_dive", "title_card"),  "glitch_drop");
    (("comparison", "title_card"), "countdown_slam");
    (("conclusion", "title_card"), "neon_pulse");
    (("intro", "screenshot"),      "spotlight_zoom");
    (("main", "screenshot"),       "browser_mockup");
    (("demo", "screenshot"),       "dashboard_reveal");
    (("deep_dive", "screenshot"),  "browser_mockup");
    (("comparison", "screenshot"), "comparison_split");
    (("conclusion", "screenshot"), "polaroid_drop")
  ].

Definition FALLBACK_TITLE_TEMPLATE : string := "typewriter_reveal".
Definition FALLBACK_SCREENSHOT_TEMPLATE : string := "browser_mockup".

Definition SECTION_MOTION_MAP : gmap string string :=
  list_to_map [
    ("intro",      "slow_push_in");
    ("main",       "drift_left");
    ("demo",       "slow_pull_out");
    ("deep_dive",  "diagonal_float");
    ("comparison", "static");
    ("conclusion", "slow_pull_out")
  ].

Definition TEMPLATE_ATMOSPHERE_MAP : gmap string string :=
  list_to_map [
    ("typewriter_reveal", "flicker");
    ("glitch_drop",       "glitch_flicker");
    ("neon_pulse",        "vignette_pulse");
    ("countdown_slam",    "vignette_pulse");
    ("split_reveal",      "none");
    ("browser_mockup",    "none");
    ("dashboard_reveal",  "none");
    ("spotlight_zoom",    "vignette_pulse");
    ("hologram_flicker",  "chromatic_drift");
    ("matrix_rain",       "vhs_wobble");
    ("particle_field",    "none")
  ].

(** [if override:] for an optional string: [None] and the empty string
    are falsy. *)
Definition given (override : option string) : option string :=
  match override with
  | Some s => if bool_decide (s = "") then None else Some s
  | None => None
  end.

Definition select_template (section_type asset_type : string)
    (override : option string) : string :=
  match given override with
  | Some o => o
  | None =>
      let key := (section_type, asset_type) in
      if bool_decide (asset_type = "title_card")
      then default FALLBACK_TITLE_TEMPLATE (SECTION_TEMPLATE_MAP !! key)
      else default FALLBACK_SCREENSHOT_TEMPLATE (SECTION_TEMPLATE_MAP !! key)
  end.

Definition valid_screenshot_motions : list string :=
  ["slow_push_in"; "slow_pull_out"; "drift_left"; "drift_right"; "diagonal_float"].

(** [random.choice(seq)] is [seq[i]] for a drawn index [i] below
    [len(seq)]; the draw is an argument here. *)
Definition random_choice (draw : nat) (seq : list string) : string :=
  default "" (seq !! draw).

Definition select_motion (section_type asset_type : string)
    (override : option string) (draw : nat) : string :=
  match given override with
  | Some o => o
  | None =>
      if bool_decide (asset_type = "title_card") then "static"
      else if bool_decide (asset_type = "screenshot")
      then random_choice draw valid_screenshot_motions
      else default "slow_push_in" (SECTION_MOTION_MAP !! section_type)
  end.

Definition select_atmosphere (template_name : string) (override : option string)
  : string :=
  match given override with
  | Some o => o
  | None => default "none" (TEMPLATE_ATMOSPHERE_MAP !! template_name)
  end.

Definition get_all_templates : list (string * list string) :=
  [("kinetic", ["typewriter_reveal"; "split_reveal"; "glitch_drop"; "neon_pulse";
                "countdown_slam"]);
   ("showcase", ["browser_mockup"; "phone_frame_scroll"; "spotlight_zoom";
                 "comparison_split"; "polaroid_drop"; "dashboard_reveal"]);
   ("data", ["counter_ticker"; "bar_race"; "progress_ring"]);
   ("transitions", ["film_burn"; "lens_flare_wipe"; "shatter_break"]);
   ("ambient", ["particle_field"; "matrix_rain"; "hologram_flicker"])].

(** [get_all_templates()[category]] *)
Definition templates_of (category : string) : list string :=
  default [] ((list_to_map get_all_templates : gmap string (list string)) !! category).

End Selector.

(** ** Sound-effect track ([visual_engine/sfx.py], second half) *)

(** A [VisualAsset] object together with the two attributes the renderer
    attaches to it; [None] where the attribute is not set, which is what
    [getattr(asset, name, default)] asks about. *)
Module Engine.

Record EngineAsset := mkEngineAsset {
  base : Sync.VisualAsset;
  clip_path : option string;
  template_name : option string;
}.

Definition of_asset (a : Sync.VisualAsset) : EngineAsset := mkEngineAsset a None None.

End Engine.

Module SfxTrack.
Import Proc Sfx Engine.

(** template name -> (transition cue, ambient cue) *)
Definition TEMPLATE_SFX_MAP : gmap string (option string * option string) :=
  list_to_map [
    ("typewriter_reveal",  (Some "typing_tick", None));
    ("split_reveal",       (Some "swoosh", None));
    ("glitch_drop",        (Some "glitch_burst", Some "light_static"));
    ("neon_pulse",         (Some "power_up", Some "hum_tech"));
    ("countdown_slam",     (Some "impact_thud", None));
    ("browser_mockup",     (Some "whoosh_soft", None));
    ("phone_frame_scroll", (Some "whoosh_soft", None));
    ("spotlight_zoom",     (Some "whoosh_soft", None));
    ("comparison_split",   (Some "swoosh", None));
    ("polaroid_drop",      (Some "film_click", None));
    ("dashboard_reveal",   (Some "scan_beep", Some "hum_tech"));
    ("counter_ticker",     (Some "counter_tick", None));
    ("bar_race",           (Some "swoosh", None));
    ("progress_ring",      (Some "notification_ping", Some "hum_tech"));
    ("film_burn",          (Some "film_click", None));
    ("lens_flare_wipe",    (Some "whoosh_sharp", None));
    ("shatter_break",      (Some "glitch_burst", None));
    ("particle_field",     (None, Some "hum_tech"));
    ("matrix_rain",        (None, Some "hum_tech"));
    ("hologram_flicker",   (Some "scan_beep", Some "hum_tech"))
  ].






(** [TEMPLATE_SFX_MAP.get(getattr(asset, "template_name", "browser_mockup"),
    ("whoosh_soft", None))] *)
Definition cues (asset : EngineAsset) : option string * option string :=
  default (Some "whoosh_soft", None)
          (TEMPLATE_SFX_MAP !! default "browser_mockup" (template_name asset)).










End SfxTrack.

(** ** Visual renderer ([visual_engine/renderer.py]) *)

Module Renderer.
Import Proc Engine.

(** [try: m except Exception as exc: handler(exc)].  What [m] did before it
    raised stays done. *)
Definition catch {E A} (m : M E A) (handler : Exn → M E A) : M E A :=
  λ st, match m st with
        | (Ok a, st') => (Ok a, st')
        | (Raise exc, st') => handler exc st'
        end.

(** [str(exc)] *)
Definition exn_text (exc : Exn) : Text :=
  match exc with
  | RuntimeError msg => msg
  | KeyError key => [Lit "'"; Lit key; Lit "'"]
  end.

Record VisualRenderer := mkVisualRenderer {
  width : Z;
  height : Z;
  fps : Z;
  codec : string;
  preset : string;
  bg_hex : string;
  accent_colours : list string;
  motion_intensity : Q;
  atmosphere_intensity : Q;
  template_override : option string;
  motion_override : option string;
  atmosphere_override : option string;
  sfx_style : string;
  sfx_enabled : bool;
  ambient_enabled : bool;
}.

Definition default_accent_colours : list string :=
  ["#4A9EFF"; "#FF6B35"; "#00C896"; "#9B59B6"].

(** [VisualRenderer.__init__]: [accent_colours or [...]] replaces [None]
    and the empty list. *)
Definition new_renderer (width height fps : Z) (codec preset bg_hex : string)
    (accent_colours : option (list string)) (sfx_style : string)
    (sfx_enabled ambient_enabled : bool) (motion_intensity atmosphere_intensity : Q)
    (template_override motion_override atmosphere_override : option string)
  : VisualRenderer :=
  mkVisualRenderer width height fps codec preset bg_hex
    (match accent_colours with
     | Some (c :: cs) => c :: cs
     | _ => default_accent_colours
     end)
    motion_intensity atmosphere_intensity
    template_override motion_override atmosphere_override
    sfx_style sfx_enabled ambient_enabled.

(** [self.motion_engine] *)
Definition motion_engine (self : VisualRenderer) : Motion.MotionEngine :=
  Motion.mkMotionEngine (width self) (height self) (fps self) (codec self) (preset self).

(** [self.accent_colours[index % len(self.accent_colours)]]; [None] is the
    [ZeroDivisionError] of an empty list. *)
Definition _get_accent (self : VisualRenderer) (index : nat) : option string :=
  match length (accent_colours self) with
  | O => None
  | S _ as n => accent_colours self !! (index mod n)%nat
  end.

(** template name -> template class *)
Definition template_map : gmap string string :=
  list_to_map [
    ("typewriter_reveal",  "TypewriterReveal");
    ("split_reveal",       "SplitReveal");
    ("glitch_drop",        "GlitchDrop");
    ("neon_pulse",         "NeonPulse");
    ("countdown_slam",     "CountdownSlam");
    ("browser_mockup",     "BrowserMockup");
    ("phone_frame_scroll", "PhoneFrameScroll");
    ("spotlight_zoom",     "SpotlightZoom");
    ("comparison_split",   "ComparisonSplit");
    ("polaroid_drop",      "PolaroidDrop");
    ("dashboard_reveal",   "DashboardReveal");
    ("counter_ticker",     "CounterTicker");
    ("bar_race",           "BarRace");
    ("progress_ring",      "ProgressRing");
    ("film_burn",          "FilmBurn");
    ("lens_flare_wipe",    "LensFlareWipe");
    ("shatter_break",      "ShatterBreak");
    ("particle_field",     "ParticleField");
    ("matrix_rain",        "MatrixRain");
    ("hologram_flicker",   "HologramFlicker")
  ].

(** A template object: its class and the constructor arguments. *)
Record Template := mkTemplate {
  cls : string;
  t_width : Z;
  t_height : Z;
  t_bg_hex : string;
  t_accent_hex : string;
}.

Definition _build_template (self : VisualRenderer) (template_name accent_hex : string)
  : Template :=
  mkTemplate (default "BrowserMockup" (template_map !! template_name))
             (width self) (height self) (bg_hex self) accent_hex.

(** The keyword arguments of [render_frame]; [None] where the key is not
    in the dict. *)
Record RenderKwargs := mkRenderKwargs {
  kw_title : option string;
  kw_section_type : option string;
  kw_image_path : option string;
  kw_url : option (option string);
}.

Definition render_kwargs (a : Sync.VisualAsset) (section_type : string)
  : RenderKwargs :=
  if bool_decide (Sync.asset_type a = "title_card")
  then mkRenderKwargs (Some (Sync.description a)) (Some section_type) None None
  else if bool_decide (Sync.asset_type a = "screenshot")
  then mkRenderKwargs (Some (Sync.description a)) None
                      (Some (Sync.file_path a)) (Some (Sync.url a))
  else mkRenderKwargs None None None None.

(** [s.lstrip("#")] *)
Fixpoint lstrip_hash (s : string) : string :=
  match s with
  | String c rest =>
      if bool_decide (String c EmptyString = "#") then lstrip_hash rest else s
  | EmptyString => s
  end.

(** The process is run with [subprocess.run]; its exit status is not
    looked at. *)
Definition _make_fallback_frame {E} (path bg_hex : string) (width height : Z)
  : M E unit :=
  let colour := lstrip_hash bg_hex in
  subprocess [[Lit "ffmpeg"]; [Lit "-y"]; [Lit "-f"]; [Lit "lavfi"];
              [Lit "-i"]; [Lit "color=c=0x"; Lit colour; Lit ":s="; Int width;
                           Lit "x"; Int height];
              [Lit "-vframes"]; [Lit "1"]; [Lit path]] ;;
  mret tt.

Definition asset_id (a : Sync.VisualAsset) : string :=
  Sync.section_id a +:+ "_" +:+ Sync.asset_type a.

Definition frame_path_of (frames_dir : string) (a : Sync.VisualAsset)
    (template_name : string) : string :=
  Sfx.path_join frames_dir (asset_id a +:+ "_" +:+ template_name +:+ ".png").

Definition clip_path_of (clips_dir : string) (a : Sync.VisualAsset)
    (template_name : string) : string :=
  Sfx.path_join clips_dir (asset_id a +:+ "_" +:+ template_name +:+ "_animated.mp4").

(** [render_frame] is what the template classes draw with PIL; it is an
    argument here, any action that may raise.  [draw] is the index
    [random.choice] draws in [select_motion].  [asset.file_path] is a
    [Path], which is always truthy. *)
Definition render_asset {E}
    (render_frame : Template → string → RenderKwargs → M E unit)
    (self : VisualRenderer) (asset : EngineAsset) (section_type : string)
    (accent_index : nat) (frames_dir clips_dir : string) (draw : nat)
  : M E EngineAsset :=
  let a := base asset in
  match _get_accent self accent_index with
  | None => raise (RuntimeError [Lit "integer modulo by zero"])
  | Some accent_hex =>
      let template_name :=
        Selector.select_template section_type (Sync.asset_type a)
                                 (template_override self) in
      let template := _build_template self template_name accent_hex in
      let frame_path := frame_path_of frames_dir a template_name in
      have_frame ← exists_ frame_path;
      (if have_frame : bool then mret tt else
         catch (render_frame template frame_path (render_kwargs a section_type))
           (λ exc,
              logger WARNING ([Lit "[Renderer] Template render failed for ";
                               Lit (asset_id a); Lit ": "] ++ exn_text exc) ;;
              have_file ← exists_ (Sync.file_path a);
              if have_file : bool then shutil_copy (Sync.file_path a) frame_path
              else _make_fallback_frame frame_path (bg_hex self)
                                        (width self) (height self))) ;;
      let motion := Selector.select_motion section_type (Sync.asset_type a)
                                           (motion_override self) draw in
      let atmosphere := Selector.select_atmosphere template_name
                                                   (atmosphere_override self) in
      let duration := Qmax 1.0 (Sync.display_end a - Sync.display_start a) in
      let clip_path := clip_path_of clips_dir a template_name in
      Motion.render_animated_clip (motion_engine self) frame_path clip_path
                                  duration motion atmosphere (motion_intensity self) ;;
      logger DEBUG [Lit "[Renderer] "; Lit (asset_id a); Lit ": "; Lit template_name;
                    Lit " + "; Lit motion; Lit " + "; Lit atmosphere] ;;
      mret (mkEngineAsset a (Some clip_path) (Some template_name))
  end.

(** [section_map[section.section_id] = section.section_type] for the
    sections of a script that is given. *)
Definition section_map (script : option Sync.VideoScript) : gmap string string :=
  match script with
  | Some sc =>
      foldl (λ m section,
               <[Sync.script_section_id section := Sync.section_type section]> m)
            ∅ (Sync.sections sc)
  | None => ∅
  end.

(** [if section_type not in accent_counter:
       accent_counter[section_type] = len(accent_counter)] *)
Definition count_section_type (accent_counter : gmap string nat)
    (section_type : string) : gmap string nat :=
  match accent_counter !! section_type with
  | Some _ => accent_counter
  | None => <[section_type := size accent_counter]> accent_counter
  end.

(** The loop of [render_all] from its [i]-th asset on. *)
Fixpoint render_loop {E}
    (render_frame : Template → string → RenderKwargs → M E unit)
    (self : VisualRenderer) (section_map : gmap string string)
    (frames_dir clips_dir : string) (draws : nat → nat)
    (accent_counter : gmap string nat) (i : nat) (timed_assets : list EngineAsset)
  : M E (list EngineAsset) :=
  match timed_assets with
  | [] => mret []
  | asset :: rest =>
      let section_type := default "main" (section_map !! Sync.section_id (base asset)) in
      let accent_counter := count_section_type accent_counter section_type in
      match accent_counter !! section_type with
      | None => raise (KeyError section_type)
      | Some accent_idx =>
          asset' ← render_asset render_frame self asset section_type accent_idx
                                frames_dir clips_dir (draws i);
          rest' ← render_loop render_frame self section_map frames_dir clips_dir
                              draws accent_counter (S i) rest;
          mret (asset' :: rest')
      end
  end.

(** The directories are not files of the world; creating them is left
    out.  [draws i] is the index drawn for the [i]-th asset. *)
Definition render_all {E}
    (render_frame : Template → string → RenderKwargs → M E unit)
    (self : VisualRenderer) (timed_assets : list EngineAsset) (work_dir : string)
    (script : option Sync.VideoScript) (draws : nat → nat)
  : M E (list EngineAsset) :=
  let frames_dir := Sfx.path_join work_dir "frames" in
  let clips_dir := Sfx.path_join work_dir "clips" in
  assets ← render_loop render_frame self (section_map script) frames_dir clips_dir
                       draws ∅ 0 timed_assets;
  logger INFO [Lit "[Renderer] Rendered "; Int (Z.of_nat (length timed_assets));
               Lit " animated clips"] ;;
  mret assets.

(** The accent index each asset is rendered with, given the section types
    of the assets in order. *)
Fixpoint accent_indices (accent_counter : gmap string nat)
    (section_types : list string) : list nat :=
  match section_types with
  | [] => []
  | section_type :: rest =>
      let accent_counter := count_section_type accent_counter section_type in
      default 0%nat (accent_counter !! section_type)
      :: accent_indices accent_counter rest
  end.

End Renderer.

(** ** Video assembly, the other stages ([services/video_service.py]) *)

Module Assembly.
Import Proc Video Engine.

(** What [_ffmpeg args] logs, and what it raises for a process that
    failed. *)
Definition ffmpeg_debug (args : list Text) : LogRecord :=
  mkLog DEBUG ([Lit "[Video] "] ++ join " " (take 8 (ffmpeg_cmd args)) ++ [Lit "..."]).

Definition ffmpeg_error (proc : ProcResult) : Exn :=
  RuntimeError [Lit "FFmpeg failed:"; Lit newline; Lit (last_chars 2000 (stderr proc))].

(** A number read from the JSON configuration where the code's default is
    an [int]. *)
Inductive Number :=
  | NInt (z : Z)
  | NFloat (q : Q).

Definition num_text (n : Number) : Piece :=
  match n with NInt z => Int z | NFloat q => Flt q end.

Definition num_Q (n : Number) : Q :=
  match n with NInt z => inject_Z z | NFloat q => q end.

(** [cfg.video_style], a dict: [None] where the key is missing. *)
Record VideoStyle := mkVideoStyle {
  ken_burns : option bool;
  ken_burns_zoom : option Q;
  background_colour : option string;
  style_accent_colours : option (list string);
}.

(** [cfg._raw.get("visual", {})] *)
Record VisualCfg := mkVisualCfg {
  cfg_sfx_style : option string;
  cfg_sfx_enabled : option bool;
  cfg_ambient_enabled : option bool;
  cfg_motion_intensity : option Q;
  cfg_atmosphere_intensity : option Q;
  cfg_template : option string;
  cfg_auto_select : option bool;
  cfg_motion : option string;
  cfg_atmosphere : option string;
}.

Definition no_visual_cfg : VisualCfg :=
  mkVisualCfg None None None None None None None None None.

(** [config/loader.py] is not among the sources: [runtime] holds the
    attributes the [Video] module reads, the other fields are the further
    attributes read by the methods below. *)
Record Config := mkConfig {
  runtime : RuntimeConfig;
  canvas_width : Z;
  canvas_height : Z;
  fps : Z;
  video_style : VideoStyle;
  visual : option VisualCfg;
  bg_music_enabled : bool;
  bg_music_path : option string;
  bg_music_volume : Q;
  fade_in_sec : option Number;     (* _raw["video"]["background_music"] *)
  fade_out_sec : option Number;
  audio_codec : string;
  audio_bitrate : string;
}.

(** The file system beyond [Proc.Env]: writing a text file and making a
    path absolute. *)
Record FsEnv := mkFsEnv {
  env :> Env;
  write_text : string → Text → World env → World env;
  resolve : World env → string → string;
}.

Definition write {F : FsEnv} (path : string) (content : Text) : M F unit :=
  λ st, (Ok tt, mkPState (write_text F path content (world st)) (trace st) (log st)).

(** An outcome that is the error of an ffmpeg process that failed. *)
Definition ffmpeg_failure {A} (o : Outcome A) : Prop :=
  ∃ proc, returncode proc ≠ 0%Z ∧ o = Raise (ffmpeg_error proc).

(** [m] returns a value that satisfies [P], or raises the error of a failed
    ffmpeg process; nothing else. *)
Definition returns {E A} (P : A → Prop) (m : M E A) : Prop :=
  ∀ st, (∃ a, (m st).1 = Ok a ∧ P a) ∨ ffmpeg_failure (m st).1.

Definition temp_path (cfg : Config) (name : string) : string :=
  Sfx.path_join (assembly_dir (runtime cfg)) name.

(** [f"file '{c.audio_path.resolve()}'"] *)
Definition audio_list_line {F : FsEnv} (w : World F) (c : Sync.AudioChunk) : Text :=
  [Lit "file '"; Lit (resolve F w (Sync.audio_path c)); Lit "'"].

Definition _concat_audio {F : FsEnv} (cfg : Config) (chunks : list Sync.AudioChunk)
    (stem : string) : M F string :=
  let out := temp_path cfg (stem +:+ "_narration.mp3") in
  cached ← exists_ out;
  if cached : bool then mret out else
  let lst := temp_path cfg (stem +:+ "_audio_list.txt") in
  (λ st, write lst (join newline (map (audio_list_line (world st)) chunks)) st) ;;
  _ffmpeg [[Lit "-f"]; [Lit "concat"]; [Lit "-safe"]; [Lit "0"];
           [Lit "-i"]; [Lit lst]; [Lit "-c"]; [Lit "copy"]; [Lit out]] ;;
  mret out.

Definition scale_pad (cfg : Config) : Text :=
  [Lit "scale="; Int (canvas_width cfg); Lit ":"; Int (canvas_height cfg);
   Lit ":force_original_aspect_ratio=decrease,pad="; Int (canvas_width cfg);
   Lit ":"; Int (canvas_height cfg); Lit ":(ow-iw)/2:(oh-ih)/2:black"].

(** The [vf] of [_img_to_clip]. *)
Definition img_filter (cfg : Config) (duration : Q) : Text :=
  if default true (ken_burns (video_style cfg)) then
    let zoom := default 0.0004 (ken_burns_zoom (video_style cfg)) in
    scale_pad cfg ++
    [Lit ","; Lit "zoompan=z='min(zoom+"; Flt zoom; Lit ",1.05)':d=";
     Int (Num.int_trunc (duration * inject_Z (fps cfg)));
     Lit ":s="; Int (canvas_width cfg); Lit "x"; Int (canvas_height cfg);
     Lit ":fps="; Int (fps cfg)]
  else scale_pad cfg.

Fixpoint zeros (n : nat) : string :=
  match n with
  | O => ""
  | S n => "0" +:+ zeros n
  end.

(** [f"{idx:04d}"] *)
Definition pad_04d (idx : nat) : string :=
  let s := pretty idx in
  zeros (4 - String.length s) +:+ s.

Definition img_args (cfg : Config) (img_path : string) (duration : Q) (out : string)
  : list Text :=
  [[Lit "-loop"]; [Lit "1"]; [Lit "-framerate"]; [Int (fps cfg)];
   [Lit "-i"]; [Lit img_path];
   [Lit "-vf"]; img_filter cfg duration;
   [Lit "-t"]; [Flt duration];
   [Lit "-c:v"]; [Lit (video_codec (runtime cfg))];
   [Lit "-preset"]; [Lit (ffmpeg_preset (runtime cfg))];
   [Lit "-pix_fmt"]; [Lit "yuv420p"]; [Lit out]].

(** [clip_path] is a [Path] or [None]. *)
Definition _img_to_clip {E} (cfg : Config) (img_path : string) (duration : Q)
    (idx : nat) (stem : string) (clip_path : option string) : M E string :=
  let render : M E string :=
    let out := temp_path cfg (stem +:+ "_clip_" +:+ pad_04d idx +:+ ".mp4") in
    cached ← exists_ out;
    if cached : bool then mret out else
    _ffmpeg (img_args cfg img_path duration out) ;;
    mret out in
  match clip_path with
  | Some p =>
      rendered ← exists_ p;
      if rendered : bool then mret p else render
  | None => render
  end.

Definition black_args (cfg : Config) (dur : Q) (out : string) : list Text :=
  [[Lit "-f"]; [Lit "lavfi"];
   [Lit "-i"]; [Lit "color=c=black:s="; Int (canvas_width cfg); Lit "x";
                Int (canvas_height cfg); Lit ":r="; Int (fps cfg)];
   [Lit "-t"]; [Flt dur];
   [Lit "-c:v"]; [Lit (video_codec (runtime cfg))];
   [Lit "-pix_fmt"]; [Lit "yuv420p"]; [Lit out]].

Definition _black {E} (cfg : Config) (dur : Q) (out : string) : M E string :=
  _ffmpeg (black_args cfg dur out) ;;
  mret out.

(** [max(a.display_end - a.display_start, 1.0)] *)
Definition clip_duration (a : EngineAsset) : Q :=
  Qmax (Sync.display_end (base a) - Sync.display_start (base a)) 1.0.

(** The loop of [_build_video_track] from its [i]-th asset on; the result
    is what it appends to [clips]. *)
Fixpoint clips_loop {E} (cfg : Config) (stem : string) (i : nat)
    (assets : list EngineAsset) : M E (list (string * Q)) :=
  match assets with
  | [] => mret []
  | a :: rest =>
      let dur := clip_duration a in
      clip ← _img_to_clip cfg (Sync.file_path (base a)) dur i stem (clip_path a);
      clips ← clips_loop cfg stem (S i) rest;
      mret ((clip, dur) :: clips)
  end.

Definition _build_video_track {E} (cfg : Config) (assets : list EngineAsset)
    (total_dur : Q) (stem : string) : M E string :=
  let out := temp_path cfg (stem +:+ "_video_track.mp4") in
  cached ← exists_ out;
  if cached : bool then mret out else
  match assets with
  | [] => _black cfg total_dur out
  | _ =>
      clips ← clips_loop cfg stem 0 assets;
      concat ← _xfade (runtime cfg) clips stem;
      _trim_pad (runtime cfg) concat total_dur out ;;
      mret out
  end.

Definition music_args (cfg : Config) (narration music : string) (duration : Q)
    (out : string) : list Text :=
  let vol := bg_music_volume cfg in
  let fi := default (NInt 2) (fade_in_sec cfg) in
  let fo := default (NInt 3) (fade_out_sec cfg) in
  [[Lit "-i"]; [Lit narration]; [Lit "-stream_loop"]; [Lit "-1"];
   [Lit "-i"]; [Lit music];
   [Lit "-filter_complex"];
   [Lit "[1:a]volume="; Flt vol; Lit ",atrim=duration="; Flt duration;
    Lit ",afade=in:st=0:d="; num_text fi; Lit ",afade=out:st=";
    Flt (duration - num_Q fo); Lit ":d="; num_text fo; Lit "[music];";
    Lit "[0:a][music]amix=inputs=2:duration=first[aout]"];
   [Lit "-map"]; [Lit "[aout]"];
   [Lit "-c:a"]; [Lit (audio_codec cfg)];
   [Lit "-b:a"]; [Lit (audio_bitrate cfg)]; [Lit out]].

Definition plain_audio_args (cfg : Config) (narration out : string) : list Text :=
  [[Lit "-i"]; [Lit narration];
   [Lit "-c:a"]; [Lit (audio_codec cfg)];
   [Lit "-b:a"]; [Lit (audio_bitrate cfg)]; [Lit out]].

Definition _mix_audio {E} (cfg : Config) (narration : string) (duration : Q)
    (stem : string) : M E string :=
  let out := temp_path cfg (stem +:+ "_audio_mixed.aac") in
  cached ← exists_ out;
  if cached : bool then mret out else
  let plain : M E unit := _ffmpeg (plain_audio_args cfg narration out) in
  (if bg_music_enabled cfg then
     match Selector.given (bg_music_path cfg) with
     | Some music =>
         there ← exists_ music;
         if there : bool then _ffmpeg (music_args cfg narration music duration out)
         else plain
     | None => plain
     end
   else plain) ;;
  mret out.

Definition burn_args (cfg : Config) (video audio out subtitle_file : string)
  : list Text :=
  [[Lit "-i"]; [Lit video]; [Lit "-i"]; [Lit audio];
   [Lit "-map"]; [Lit "0:v"]; [Lit "-map"]; [Lit "1:a"];
   [Lit "-vf"]; [Lit "subtitles='"; Lit subtitle_file; Lit "'"];
   [Lit "-c:v"]; [Lit (video_codec (runtime cfg))];
   [Lit "-preset"]; [Lit (ffmpeg_preset (runtime cfg))];
   [Lit "-c:a"]; [Lit "copy"]; [Lit "-shortest"]; [Lit out]].

Definition copy_args (video audio out : string) : list Text :=
  [[Lit "-i"]; [Lit video]; [Lit "-i"]; [Lit audio];
   [Lit "-map"]; [Lit "0:v"]; [Lit "-map"]; [Lit "1:a"];
   [Lit "-c:v"]; [Lit "copy"]; [Lit "-c:a"]; [Lit "copy"];
   [Lit "-shortest"]; [Lit out]].

(** [subtitle_file] is a [Path] or [None]. *)
Definition _mux {E} (cfg : Config) (video audio out : string)
    (subtitle_file : option string) : M E unit :=
  match subtitle_file with
  | Some f =>
      there ← exists_ f;
      if there : bool then _ffmpeg (burn_args cfg video audio out f)
      else _ffmpeg (copy_args video audio out)
  | None => _ffmpeg (copy_args video audio out)
  end.

(** The renderer [_run_visual_engine] builds from the configuration. *)
Definition engine_renderer (cfg : Config) : Renderer.VisualRenderer :=
  let style := video_style cfg in
  let visual_cfg := default no_visual_cfg (visual cfg) in
  Renderer.new_renderer
    (canvas_width cfg) (canvas_height cfg) (fps cfg)
    (video_codec (runtime cfg)) (ffmpeg_preset (runtime cfg))
    (default "#0F1117" (background_colour style))
    (Some (default ["#4A9EFF"; "#FF6B35"; "#00C896"; "#9B59B6"]
                   (style_accent_colours style)))
    (default "subtle" (cfg_sfx_style visual_cfg))
    (default true (cfg_sfx_enabled visual_cfg))
    (default true (cfg_ambient_enabled visual_cfg))
    (default 0.35 (cfg_motion_intensity visual_cfg))
    (default 0.3 (cfg_atmosphere_intensity visual_cfg))
    (if negb (default true (cfg_auto_select visual_cfg))
     then cfg_template visual_cfg else None)
    (cfg_motion visual_cfg)
    (cfg_atmosphere visual_cfg).

(** In the [except] branch the list handed in is returned; the renderer
    modelled here never raises, so no asset is left half rendered. *)
Definition _run_visual_engine {E}
    (render_frame : Renderer.Template → string → Renderer.RenderKwargs → M E unit)
    (cfg : Config) (assets : list EngineAsset) (stem : string)
    (script : option Sync.VideoScript) (draws : nat → nat)
  : M E (list EngineAsset) :=
  Renderer.catch
    (let renderer := engine_renderer cfg in
     let work_dir := temp_path cfg (stem +:+ "_engine") in
     assets ← Renderer.render_all render_frame renderer assets work_dir script draws;
     logger INFO [Lit "[Video] Visual Engine complete — ";
                  Int (Z.of_nat (length assets)); Lit " animated clips"] ;;
     mret assets)
    (λ exc,
       logger WARNING ([Lit "[Video] Visual Engine failed ("] ++ Renderer.exn_text exc
                       ++ [Lit "), falling back to static clips"]) ;;
       mret assets).

(** For an empty list of chunks Python's [sum] is the int 0, printed [0]
    where [total_dur] prints [0.0]; the number is the same. *)
Definition assemble {F : FsEnv}
    (render_frame : Renderer.Template → string → Renderer.RenderKwargs → M F unit)
    (cfg : Config) (audio_chunks : list Sync.AudioChunk)
    (visual_assets : list EngineAsset) (output_stem : string)
    (script : option Sync.VideoScript) (subtitle_file : option string)
    (draws : nat → nat) : M F string :=
  logger INFO [Lit "[Video] Assembling with Visual Engine"] ;;
  narration ← _concat_audio cfg audio_chunks output_stem;
  let total_dur := total_dur audio_chunks in
  visual_assets ← _run_visual_engine render_frame cfg visual_assets output_stem
                                     script draws;
  video_track ← _build_video_track cfg visual_assets total_dur output_stem;
  mixed_audio ← _mix_audio cfg narration total_dur output_stem;
  let out := Sfx.path_join (output_dir (runtime cfg)) (output_stem +:+ ".mp4") in
  _mux cfg video_track mixed_audio out subtitle_file ;;
  assemble_after_mux (runtime cfg) out total_dur.

End Assembly.

(** ** A world in which every tool fails *)

Module Broken.
Import Proc.

(** No file exists, and every process exits with status 1 and leaves the
    world as it is. *)
Definition env : Env :=
  mkEnv unit
        (λ _ _, false)
        (λ _ w, (mkProcResult 1 "" "failed", w))
        (λ _ _ w, w)
        (λ _, None).

Definition start : PState env := mkPState (tt : World env) [] [].

End Broken.

(** * Properties *)

(** ** Numerics *)

Section NumFacts.

Lemma ltb_lt x y : Num.ltb x y = true ↔ x < y.
Proof.
  unfold Num.ltb. rewrite Qlt_alt. destruct (x ?= y)%Q; split; congruence.
Qed.

Lemma ltb_ge x y : Num.ltb x y = false ↔ y <= x.
Proof.
  rewrite <- not_true_iff_false, ltb_lt. split; [apply Qnot_lt_le | apply Qle_not_lt].
Qed.

Lemma gtb_gt x y : Num.gtb x y = true ↔ y < x.
Proof. apply ltb_lt. Qed.

Lemma gtb_le x y : Num.gtb x y = false ↔ x <= y.
Proof. apply ltb_ge. Qed.

End NumFacts.

(** ** The process monad *)

Ltac run_proc :=
  unfold mbind, mret, M_bind, M_ret, Proc.bind, Proc.ret, Proc.exists_,
    Proc.subprocess, Proc.logger, Proc.shutil_copy, Proc.raise in *;
  simpl in *.

(** ** Video assembly *)

Section VideoFacts.
Import Proc Video.
Context {E : Env}.

Lemma duration_run path (st : PState E) :
  _duration path st =
  (Ok (probed E (world st) path),
   mkPState (run_process E (probe_cmd path) (world st)).2
            (trace st ++ [probe_cmd path]) (log st)).
Proof.
  unfold _duration, probed. run_proc.
  destruct (run_process E (probe_cmd path) (world st)); reflexivity.
Qed.

Lemma new_log_app (st : PState E) w t l :
  new_log st (mkPState w t (log st ++ l)) = l.
Proof. unfold new_log; simpl. apply drop_app_length. Qed.

Lemma new_trace_app (st : PState E) w l t :
  new_trace st (mkPState w (trace st ++ t) l) = t.
Proof. unfold new_trace; simpl. apply drop_app_length. Qed.


(** C3 (as amended).  After the final mux the probed duration of the
    container is compared to the target: [assemble] returns the file, and a
    drift warning is logged exactly when quality checks are enabled and
    [|actual - target|] is strictly beyond the threshold.  With target 60.0
    and threshold 1.0 a warning is therefore logged both for an actual
    duration of 61.3 (drift 1.3) and for 58.5 (drift 1.5). *)
Theorem drift_warning_beyond_threshold cfg out total (st : PState E) :
  let actual := probed E (world st) out in
  let drift := Qabs (actual - total) in
  let res := assemble_after_mux cfg out total st in
  res.1 = Ok out ∧
  (warned st res.2 = true ↔
     quality_checks_enabled cfg = true ∧ max_sync_drift_sec cfg < drift) ∧
  (quality_checks_enabled cfg = true → max_sync_drift_sec cfg == 1.0 →
   total == 60.0 → actual == 61.3 ∨ actual == 58.5 →
   warned st res.2 = true).
Proof.
  intros actual drift res.
  assert (Hres : res =
    (Ok out,
     mkPState (run_process E (probe_cmd out) (world st)).2
       (trace st ++ [probe_cmd out])
       (log st ++
          mkLog INFO [Lit "[Video] Done: "; Lit out; Lit " | "; Dec 1 actual;
                      Lit "s (drift: "; Dec 2 drift; Lit "s)"] ::
          (if quality_checks_enabled cfg && Num.gtb drift (max_sync_drift_sec cfg)
           then [mkLog WARNING (drift_warning cfg drift)] else [])))). 
  { unfold res, assemble_after_mux.
    unfold mbind at 1, M_bind, Proc.bind. rewrite duration_run.
    fold actual. fold drift. run_proc.
    destruct (quality_checks_enabled cfg && Num.gtb drift (max_sync_drift_sec cfg));
      run_proc; rewrite <- ?app_assoc; reflexivity. }
  assert (Hw : warned st res.2 =
               quality_checks_enabled cfg && Num.gtb drift (max_sync_drift_sec cfg)).
  { rewrite Hres. unfold warned. simpl. rewrite new_log_app.
    destruct (quality_checks_enabled cfg && Num.gtb drift (max_sync_drift_sec cfg));
      reflexivity. }
  split; [rewrite Hres; reflexivity|].
  rewrite Hw, andb_true_iff, gtb_gt. split; [tauto|].
  intros Hq Hmax Htot Hact. split; [assumption|].
  unfold drift. rewrite Hmax, Htot.
  destruct Hact as [-> | ->]; reflexivity.
Qed.


Lemma sum_durations_snoc clips c :
  sum_durations (clips ++ [c]) == sum_durations clips + snd c.
Proof.
  unfold sum_durations. induction clips as [|d clips IH]; simpl.
  - lra.
  - rewrite IH. lra.
Qed.

(** The state of the loop of [_xfade] after [m] iterations. *)
Lemma xfade_loop_inv cfg clips m :
  (m ≤ length clips - 1)%nat →
  let s := foldl (xfade_step cfg clips) (mkXfadeLoop [] [Lit "[0:v]"] 0.0) (seq 1 m) in
  length (parts s) = m ∧
  cum s == sum_durations (take m clips) - Num.of_nat m * transition_duration cfg ∧
  ∀ i p, parts s !! i = Some p →
    xf_index p = S i ∧ xf_duration p = transition_duration cfg ∧
    xf_offset p == sum_durations (take (S i) clips)
                   - Num.of_nat (S i) * transition_duration cfg.
Proof.
  induction m as [|m IH]; intros Hm s.
  - subst s; simpl. split; [reflexivity|]. split.
    + change (Num.of_nat 0) with 0. change 0.0 with (0 # 10). lra.
    + intros i p Hp. rewrite lookup_nil in Hp. discriminate.
  - destruct IH as (Hlen & Hcum & Hparts); [lia|].
    subst s. rewrite seq_S, foldl_snoc. simpl.
    set (s := foldl (xfade_step cfg clips) _ (seq 1 m)) in *.
    rewrite Nat.sub_0_r.
    destruct (lookup_lt_is_Some_2 clips m) as [[path d] Hd]; [lia|].
    rewrite Hd; simpl.
    assert (Hnext : cum s + (d - transition_duration cfg) ==
                    sum_durations (take (S m) clips)
                    - Num.of_nat (S m) * transition_duration cfg).
    { rewrite (take_S_r _ _ _ Hd), sum_durations_snoc, Hcum. simpl.
      unfold Num.of_nat. rewrite Nat2Z.inj_succ, <- Z.add_1_r, inject_Z_plus.
      change (inject_Z 1) with 1. lra. }
    split; [rewrite length_app, Hlen; simpl; lia|].
    split; [exact Hnext|].
    intros i p Hp.
    destruct (decide (i < m)%nat) as [Hi|Hi].
    + rewrite lookup_app_l in Hp by lia. apply Hparts, Hp.
    + rewrite lookup_app_r in Hp by lia.
      rewrite Hlen in Hp.
      destruct (i - m)%nat as [|k] eqn:Hk; simpl in Hp; [|discriminate].
      inversion Hp; subst p; simpl.
      assert (i = m) as -> by lia.
      split; [reflexivity|]. split; [reflexivity|]. exact Hnext.
Qed.

(** C2 (as amended).  Transition [j] (the part at position [j - 1]) joins
    input [j] at offset [d_0 + ... + d_(j-1) - j * td].  For three clips of
    5s each and [td = 0.5] the first transition is at 4.5 and the second at
    [10 - 2 * 0.5 = 9.0]. *)
Theorem xfade_offsets cfg clips :
  (∀ i p, xfade_parts cfg clips !! i = Some p →
     xf_index p = S i ∧
     xf_offset p == sum_durations (take (S i) clips)
                    - Num.of_nat (S i) * transition_duration cfg) ∧
  (transition_duration cfg = 0.5 → map snd clips = [5.0; 5.0; 5.0] →
     Forall2 Qeq (map offset_value (xfade_parts cfg clips)) [4.5; 9.0]).
Proof.
  split.
  - intros i p Hp.
    destruct (xfade_loop_inv cfg clips (length clips - 1)) as (_ & _ & H); [lia|].
    destruct (H i p Hp) as (? & ? & ?). auto.
  - intros Htd Hclips.
    destruct clips as [|[a x] [|[b y] [|[c z] [|]]]]; try discriminate.
    inversion Hclips; subst x y z.
    unfold xfade_parts; simpl. unfold xfade_step; simpl.
    rewrite Htd. repeat constructor.
Qed.

End VideoFacts.

(** For three clips of 5s and [td = 0.5] the second transition is not at
    8.5: the claim C2 as stated fails. *)
Lemma xfade_second_offset_not_8_5 :
  ¬ (∃ p, Video.xfade_parts Demo.cfg [("a", 5.0); ("b", 5.0); ("c", 5.0)] !! 1%nat
          = Some p ∧ Video.offset_value p == 8.5).
Proof.
  intros (p & Hp & Hoff). vm_compute in Hp. inversion Hp; subst p.
  vm_compute in Hoff. discriminate.
Qed.

Lemma xfade_offsets_witness :
  Forall2 Qeq
    (map Video.offset_value
         (Video.xfade_parts Demo.cfg [("a", 5.0); ("b", 5.0); ("c", 5.0)]))
    [4.5; 9.0]
  ∧ ∃ p, Video.xfade_parts Demo.cfg [("a", 5.0); ("b", 7.0); ("c", 5.0)] !! 1%nat
         = Some p ∧ Video.xf_offset p == 11.
Proof.
  split.
  - apply (proj2 (xfade_offsets Demo.cfg _)); reflexivity.
  - eexists. split; [reflexivity|].
    match goal with
    | |- Video.xf_offset ?p == _ =>
        rewrite (proj2 (proj1 (xfade_offsets Demo.cfg
                                 [("a", 5.0); ("b", 7.0); ("c", 5.0)])
                              1%nat p eq_refl))
    end.
    vm_compute. reflexivity.
Defined.

(** With the container at 61.3s, a target of 60.0s and threshold 1.0s the
    warning is logged: the "no warning" of claim C3 fails. *)
Lemma drift_61_3_is_warned :
  let st := Demo.start [("out.mp4", "61.3")] in
  ¬ (Proc.warned st (Video.assemble_after_mux Demo.cfg "out.mp4" 60.0 st).2 = false).
Proof. vm_compute. discriminate. Qed.

Lemma drift_warning_witness :
  let st := Demo.start [("out.mp4", "58.5")] in
  Proc.warned st (Video.assemble_after_mux Demo.cfg "out.mp4" 60.0 st).2 = true.
Proof.
  intros st.
  pose proof (drift_warning_beyond_threshold (E := Demo.env)
                Demo.cfg "out.mp4" 60.0 st) as H.
  cbv zeta in H. destruct H as (_ & _ & H). apply H.
  - reflexivity.
  - reflexivity.
  - reflexivity.
  - right. vm_compute. reflexivity.
Defined.


(** ** Decimal formatting *)

Section FormatFacts.





End FormatFacts.

(** ** Motion filter *)

Section MotionFacts.
Import Proc Motion.


Lemma total_frames_pos self d : 0 < inject_Z (total_frames self d).
Proof.
  change 0 with (inject_Z 0). rewrite <- Zlt_Qlt. unfold total_frames. lia.
Qed.



End MotionFacts.



(** ** Render stages: the cache and the motion fallback *)

Section RenderFacts.
Import Proc Motion Sfx.
Context {E : Env}.




(** C8.  Both render stages are keyed by their output path.  When that file
    exists the call starts no process, leaves the world and the log as they
    are, and returns the path; this is the reference a first invocation
    that produced the file returned. *)
Theorem cached_output_short_circuits (st : PState E) :
  (∀ self frame out d motion atm i,
     path_exists E (world st) out = true →
     render_animated_clip self frame out d motion atm i st = (Ok out, st)) ∧
  (∀ self name vol,
     path_exists E (world st) (sfx_out self name) = true →
     generate_sfx self name vol st = (Ok (Some (sfx_out self name)), st)) ∧
  (∀ self frame out d motion atm i (st0 : PState E) r,
     render_animated_clip self frame out d motion atm i st0 = (Ok r, st) →
     path_exists E (world st) out = true →
     render_animated_clip self frame out d motion atm i st = (Ok r, st)) ∧
  (∀ self name vol (st0 : PState E) r,
     generate_sfx self name vol st0 = (Ok (Some r), st) →
     path_exists E (world st) (sfx_out self name) = true →
     generate_sfx self name vol st = (Ok (Some r), st)).
Proof.
  assert (Hrender : ∀ self frame out d motion atm i,
     path_exists E (world st) out = true →
     render_animated_clip self frame out d motion atm i st = (Ok out, st)).
  { intros self frame out d motion atm i Hc. unfold render_animated_clip.
    unfold mbind at 1, M_bind, Proc.bind, exists_. rewrite Hc. reflexivity. }
  assert (Hsfx : ∀ self name vol,
     path_exists E (world st) (sfx_out self name) = true →
     generate_sfx self name vol st = (Ok (Some (sfx_out self name)), st)).
  { intros self name vol Hc. unfold generate_sfx.
    unfold mbind at 1, M_bind, Proc.bind, exists_. rewrite Hc. reflexivity. }
  split; [exact Hrender|]. split; [exact Hsfx|]. split.
  - intros self frame out d motion atm i st0 r Hfirst Hc.
    rewrite (Hrender _ _ _ _ _ _ _ Hc). f_equal. f_equal.
    revert Hfirst. unfold render_animated_clip.
    unfold mbind at 1, M_bind, Proc.bind, exists_.
    destruct (path_exists E (world st0) out); [intros [= <- _]; reflexivity|].
    destruct (MOTION_PRESETS !! _); [|discriminate].
    unfold _static_fallback. run_proc.
    destruct (run_process E _ (world st0)) as [proc w]; simpl.
    destruct (negb (returncode proc =? 0)%Z); simpl.
    + destruct (run_process E _ w). intros [= <- _]; reflexivity.
    + intros [= <- _]; reflexivity.
  - intros self name vol st0 r Hfirst Hc.
    rewrite (Hsfx _ _ _ Hc). f_equal. f_equal. f_equal.
    revert Hfirst. unfold generate_sfx.
    unfold mbind at 1, M_bind, Proc.bind, exists_.
    destruct (path_exists E (world st0) _); [intros [= <- _]; reflexivity|].
    destruct (SFX_LIBRARY !! name); run_proc; [|discriminate].
    destruct (run_process E _ (world st0)) as [proc w]; simpl.
    destruct (negb (returncode proc =? 0)%Z); simpl; [discriminate|].
    intros [= <- _]; reflexivity.
Qed.

End RenderFacts.


Lemma cached_output_witness :
  let sfx := Sfx.new_engine "sfx" "subtle" true true in
  let st0 := Demo.start [] in
  let first := Motion.render_animated_clip Demo.engine "f.png" "clip.mp4" 3.0
                 "drift_left" "flicker" 0.35 st0 in
  let cue := Sfx.generate_sfx sfx "swoosh" None st0 in
  Motion.render_animated_clip Demo.engine "f.png" "clip.mp4" 3.0
    "drift_left" "flicker" 0.35 first.2 = (first.1, first.2) ∧
  Sfx.generate_sfx sfx "swoosh" None cue.2 = (cue.1, cue.2).
Proof.
  intros sfx st0 first cue. split.
  - pose proof (cached_output_short_circuits (E := Demo.env) first.2) as (_ & _ & H & _).
    apply (H Demo.engine "f.png" "clip.mp4" 3.0 "drift_left" "flicker" 0.35 st0 "clip.mp4");
      reflexivity.
  - pose proof (cached_output_short_circuits (E := Demo.env) cue.2) as (_ & _ & _ & H).
    apply (H sfx "swoosh" None st0 "sfx/swoosh.wav"); reflexivity.
Defined.

(** ** Timing allocation *)

Section SyncFacts.
Import Sync.
Context (script : VideoScript).

Implicit Types (h : list VisualAsset) (st : SyncState) (r : nat) (a : VisualAsset).

(** *** Setters and the heap *)

Lemma set_window_start ds de a : display_start (set_window ds de a) = ds.
Proof. reflexivity. Qed.

Lemma set_window_end ds de a : display_end (set_window ds de a) = de.
Proof. reflexivity. Qed.

Lemma set_window_twice ds de ds' de' a :
  set_window ds de (set_window ds' de' a) = set_window ds de a.
Proof. reflexivity. Qed.

Lemma extend_set_window ds de de' a :
  set_display_end de' (set_window ds de a) = set_window ds de' a.
Proof. reflexivity. Qed.

Lemma same_static_refl h : same_static h h.
Proof. intros r. reflexivity. Qed.

Lemma same_static_trans h1 h2 h3 :
  same_static h1 h2 → same_static h2 h3 → same_static h1 h3.
Proof. intros H12 H23 r. rewrite H23. apply H12. Qed.

Lemma same_static_alter f r h :
  (∀ a, static (f a) = static a) → same_static h (alter f r h).
Proof.
  intros Hf r'. destruct (decide (r = r')) as [->|Hne].
  - rewrite list_lookup_alter_eq. destruct (h !! r'); simpl; [|reflexivity].
    f_equal. apply Hf.
  - rewrite list_lookup_alter_ne by assumption. reflexivity.
Qed.

Lemma same_static_has_type h h' t r :
  same_static h h' → has_type h' t r = has_type h t r.
Proof.
  intros Hs. specialize (Hs r). unfold has_type.
  destruct (h' !! r) as [a'|], (h !! r) as [a|]; simpl in Hs; try discriminate;
    [|reflexivity].
  inversion Hs. congruence.
Qed.


Lemma same_static_length h h' : same_static h h' → length h' = length h.
Proof.
  intros Hs.
  destruct (Nat.lt_trichotomy (length h') (length h)) as [Hlt|[Heq|Hlt]];
    [|exact Heq|].
  - specialize (Hs (length h')).
    rewrite (lookup_ge_None_2 h') in Hs by lia.
    destruct (lookup_lt_is_Some_2 h (length h') Hlt) as [a Ha].
    rewrite Ha in Hs. discriminate.
  - specialize (Hs (length h)).
    rewrite (lookup_ge_None_2 h) in Hs by lia.
    destruct (lookup_lt_is_Some_2 h' (length h) Hlt) as [a Ha].
    rewrite Ha in Hs. discriminate.
Qed.

(** *** [place] *)

Lemma place_heap_eq r ds de st :
  heap (place r ds de st) !! r = set_window ds de <$> heap st !! r.
Proof.
  unfold place; simpl. rewrite !list_lookup_alter_eq.
  destruct (heap st !! r); reflexivity.
Qed.

Lemma place_heap_ne r r' ds de st :
  r ≠ r' → heap (place r ds de st) !! r' = heap st !! r'.
Proof.
  intros Hne. unfold place; simpl. rewrite !list_lookup_alter_ne by assumption.
  reflexivity.
Qed.

Lemma place_static r ds de st : same_static (heap st) (heap (place r ds de st)).
Proof.
  unfold place; simpl.
  eapply same_static_trans; apply same_static_alter; reflexivity.
Qed.

(** *** The three loops of a section *)

Lemma place_all_spec ds de (l : list nat) st :
  let st' := foldl (λ s tc, place tc ds de s) st l in
  assigned st' = assigned st ++ l ∧ logs st' = logs st ∧
  same_static (heap st) (heap st') ∧
  (∀ r, r ∈ l → heap st' !! r = set_window ds de <$> heap st !! r) ∧
  (∀ r, r ∉ l → heap st' !! r = heap st !! r).
Proof.
  revert st. induction l as [|x l IH]; intros st; simpl.
  - rewrite app_nil_r. repeat split; auto using same_static_refl.
    intros r Hr. inversion Hr.
  - destruct (IH (place x ds de st)) as (Ha & Hl & Hs & Hin & Hout).
    split; [rewrite Ha; simpl; rewrite <- app_assoc; reflexivity|].
    split; [rewrite Hl; reflexivity|].
    split; [eapply same_static_trans; [apply place_static|exact Hs]|].
    split.
    + intros r Hr. destruct (decide (r ∈ l)) as [Hrl|Hrl].
      * rewrite (Hin r Hrl). destruct (decide (x = r)) as [->|Hne].
        -- rewrite place_heap_eq. destruct (heap st !! r); reflexivity.
        -- rewrite place_heap_ne by assumption. reflexivity.
      * rewrite (Hout r Hrl).
        apply elem_of_cons in Hr as [->|Hr]; [|contradiction].
        apply place_heap_eq.
    + intros r Hr. apply not_elem_of_cons in Hr as [Hne Hr].
      rewrite (Hout r Hr). apply place_heap_ne. congruence.
Qed.

Lemma place_screenshots_spec cs per (sss : list nat) : ∀ i st,
  NoDup sss →
  let st' := place_screenshots cs per i sss st in
  assigned st' = assigned st ++ sss ∧ logs st' = logs st ∧
  same_static (heap st) (heap st') ∧
  (∀ j r, sss !! j = Some r →
     heap st' !! r
     = set_window (cs + Num.of_nat (i + j) * per)
                  (cs + Num.of_nat (i + j + 1) * per) <$> heap st !! r) ∧
  (∀ r, r ∉ sss → heap st' !! r = heap st !! r).
Proof.
  induction sss as [|x sss IH]; intros i st Hnd; simpl.
  - rewrite app_nil_r. repeat split; auto using same_static_refl.
    intros j r Hr. rewrite lookup_nil in Hr. discriminate.
  - apply NoDup_cons in Hnd as [Hx Hnd].
    destruct (IH (S i) (place x (cs + Num.of_nat i * per)
                              (cs + Num.of_nat (i + 1) * per) st) Hnd)
      as (Ha & Hl & Hs & Hin & Hout).
    split; [rewrite Ha; simpl; rewrite <- app_assoc; reflexivity|].
    split; [rewrite Hl; reflexivity|].
    split; [eapply same_static_trans; [apply place_static|exact Hs]|].
    split.
    + intros [|j] r Hr; simpl in Hr.
      * inversion Hr; subst r. rewrite (Hout x Hx), place_heap_eq.
        rewrite Nat.add_0_r. reflexivity.
      * rewrite (Hin j r Hr).
        assert (x ≠ r).
        { intros ->. apply Hx. eapply list_elem_of_lookup_2, Hr. }
        rewrite place_heap_ne by assumption.
        replace (S i + j)%nat with (i + S j)%nat by lia. reflexivity.
    + intros r Hr. apply not_elem_of_cons in Hr as [Hne Hr].
      rewrite (Hout r Hr). apply place_heap_ne. congruence.
Qed.

Lemma extend_title_cards_spec e (l : list nat) st :
  let st' := extend_title_cards e l st in
  assigned st' = assigned st ∧ logs st' = logs st ∧
  same_static (heap st) (heap st') ∧
  (∀ r, r ∈ l → heap st' !! r = set_display_end e <$> heap st !! r) ∧
  (∀ r, r ∉ l → heap st' !! r = heap st !! r).
Proof.
  unfold extend_title_cards; simpl.
  split; [reflexivity|]. split; [reflexivity|].
  generalize (heap st). clear st.
  induction l as [|x l IH]; intros h; simpl.
  - repeat split; auto using same_static_refl. intros r Hr. inversion Hr.
  - destruct (IH (alter (set_display_end e) x h)) as (Hs & Hin & Hout).
    split; [eapply same_static_trans; [|exact Hs];
            apply same_static_alter; reflexivity|].
    split.
    + intros r Hr. destruct (decide (r ∈ l)) as [Hrl|Hrl].
      * rewrite (Hin r Hrl). destruct (decide (x = r)) as [->|Hne].
        -- rewrite list_lookup_alter_eq. destruct (h !! r); reflexivity.
        -- rewrite list_lookup_alter_ne by assumption. reflexivity.
      * rewrite (Hout r Hrl).
        apply elem_of_cons in Hr as [->|Hr]; [|contradiction].
        apply list_lookup_alter_eq.
    + intros r Hr. apply not_elem_of_cons in Hr as [Hne Hr].
      rewrite (Hout r Hr). apply list_lookup_alter_ne. congruence.
Qed.

(** *** One section *)

Lemma tcs_sss_disjoint h rs r : r ∈ tcs_in h rs → r ∉ sss_in h rs.
Proof.
  unfold tcs_in, sss_in. rewrite !list_elem_of_filter. intros [Ht _] [Hs _].
  unfold has_type in *. destruct (h !! r) as [a|]; [|discriminate].
  apply bool_decide_eq_true in Ht, Hs. congruence.
Qed.

Lemma filters_same_static h h' rs :
  same_static h h' →
  filter (λ r, has_type h' "title_card" r = true) rs = tcs_in h rs ∧
  filter (λ r, has_type h' "screenshot" r = true) rs = sss_in h rs.
Proof.
  intros Hs. split; apply list_filter_iff; intros r;
    rewrite (same_static_has_type h h') by assumption; reflexivity.
Qed.

Lemma process_section_spec tm h0 st sid rs :
  same_static h0 (heap st) → NoDup rs →
  let st' := process_section tm st (sid, rs) in
  same_static h0 (heap st') ∧
  assigned st' = assigned st ++ sec_assigned tm h0 (sid, rs) ∧
  logs st' = logs st ++ sec_logs tm (sid, rs) ∧
  (∀ r, r ∉ rs → heap st' !! r = heap st !! r) ∧
  match tm !! sid with
  | None => heap st' = heap st
  | Some (s, e) =>
      let tcs := tcs_in h0 rs in
      let sss := sss_in h0 rs in
      let cs := s + title_duration s e in
      let per := (e - cs) / Num.of_nat (length sss) in
      (∀ r, r ∈ tcs →
         heap st' !! r
         = set_window s (match sss with [] => e | _ => cs end) <$> heap st !! r) ∧
      (∀ j r, sss !! j = Some r →
         heap st' !! r
         = set_window (cs + Num.of_nat j * per)
                      (cs + Num.of_nat (j + 1) * per) <$> heap st !! r) ∧
      (∀ r, r ∉ tcs → r ∉ sss → heap st' !! r = heap st !! r)
  end.
Proof.
  intros Hst Hnd. unfold process_section, sec_assigned, sec_logs; simpl.
  destruct (tm !! sid) as [[s e]|] eqn:Htm; simpl.
  2:{ rewrite app_nil_r. repeat split; auto. }
  destruct (filters_same_static h0 (heap st) rs Hst) as [-> ->].
  fold (title_duration s e).
  set (tcs := tcs_in h0 rs). set (sss := sss_in h0 rs).
  set (cs := s + title_duration s e).
  destruct (place_all_spec s cs tcs st) as (Ha1 & Hl1 & Hs1 & Hin1 & Hout1).
  set (st1 := foldl (λ s0 tc, place tc s cs s0) st tcs) in *.
  assert (Hsub_t : ∀ r, r ∈ tcs → r ∈ rs)
    by (intros r Hr; apply list_elem_of_filter in Hr; tauto).
  assert (Hsub_s : ∀ r, r ∈ sss → r ∈ rs)
    by (intros r Hr; apply list_elem_of_filter in Hr; tauto).
  assert (Hnd_s : NoDup sss) by (apply NoDup_filter; assumption).
  destruct sss as [|x sss'] eqn:Hsss.
  - destruct (extend_title_cards_spec e tcs st1) as (Ha2 & Hl2 & Hs2 & Hin2 & Hout2).
    rewrite app_nil_r.
    split; [eauto using same_static_trans|].
    split; [congruence|]. split; [rewrite app_nil_r; congruence|].
    split; [intros r Hr; rewrite Hout2, Hout1 by auto; reflexivity|].
    split; [|split].
    + intros r Hr. rewrite (Hin2 r Hr), (Hin1 r Hr).
      destruct (heap st !! r); reflexivity.
    + intros j r Hr. rewrite lookup_nil in Hr. discriminate.
    + intros r Hr _. rewrite Hout2, Hout1 by auto. reflexivity.
  - rewrite <- Hsss in *.
    destruct (place_screenshots_spec cs
                ((e - cs) / Num.of_nat (length sss)) sss 0 st1 Hnd_s)
      as (Ha2 & Hl2 & Hs2 & Hin2 & Hout2).
    split; [eauto using same_static_trans|].
    split; [rewrite Ha2, Ha1, <- app_assoc; reflexivity|].
    split; [rewrite app_nil_r; congruence|].
    split; [intros r Hr; rewrite Hout2, Hout1 by auto; reflexivity|].
    split; [|split].
    + intros r Hr. rewrite Hsss, <- Hsss.
      rewrite Hout2 by (apply tcs_sss_disjoint; exact Hr).
      exact (Hin1 r Hr).
    + intros j r Hr. rewrite (Hin2 j r Hr). simpl.
      rewrite Hout1; [reflexivity|].
      intros Hrt. apply (tcs_sss_disjoint h0 rs r Hrt).
      eapply list_elem_of_lookup_2, Hr.
    + intros r Hrt Hrs. rewrite Hout2, Hout1 by auto. reflexivity.
Qed.

(** What a section does to one of the objects depends on the heap only
    through that object. *)
Lemma process_section_local tm h0 st1 st2 sid rs r :
  same_static h0 (heap st1) → same_static h0 (heap st2) → NoDup rs →
  heap st1 !! r = heap st2 !! r →
  heap (process_section tm st1 (sid, rs)) !! r
  = heap (process_section tm st2 (sid, rs)) !! r.
Proof.
  intros H1 H2 Hnd Hr.
  destruct (process_section_spec tm h0 st1 sid rs H1 Hnd) as (_ & _ & _ & _ & Hv1).
  destruct (process_section_spec tm h0 st2 sid rs H2 Hnd) as (_ & _ & _ & _ & Hv2).
  destruct (tm !! sid) as [[s e]|]; [|congruence].
  cbv zeta in Hv1, Hv2.
  destruct Hv1 as (Ht1 & Hs1 & Ho1), Hv2 as (Ht2 & Hs2 & Ho2).
  destruct (decide (r ∈ tcs_in h0 rs)) as [Hin|Hin].
  { rewrite (Ht1 r Hin), (Ht2 r Hin), Hr. reflexivity. }
  destruct (decide (r ∈ sss_in h0 rs)) as [Hin'|Hin'].
  { apply list_elem_of_lookup_1 in Hin' as [j Hj].
    rewrite (Hs1 j r Hj), (Hs2 j r Hj), Hr. reflexivity. }
  rewrite Ho1, Ho2 by assumption. exact Hr.
Qed.

(** *** The loop over the sections *)

Lemma groups_ok_cons h k rs G :
  groups_ok h ((k, rs) :: G) →
  groups_ok h G ∧ NoDup rs ∧ (∀ r, r ∈ rs → section_of h r = Some k) ∧
  ∀ k' rs' r, (k', rs') ∈ G → r ∈ rs' → r ∉ rs.
Proof.
  intros [Hnd Hg]. simpl in Hnd. apply NoDup_cons in Hnd as [Hk Hnd].
  destruct (Hg k rs) as [Hrs Hsec]; [left|].
  split; [|split; [exact Hrs|split; [exact Hsec|]]].
  - split; [exact Hnd|]. intros k' rs' Hin. apply Hg. right. exact Hin.
  - intros k' rs' r Hin Hr Hr'.
    destruct (Hg k' rs') as [_ Hsec']; [right; exact Hin|].
    specialize (Hsec _ Hr'). specialize (Hsec' _ Hr).
    assert (k' = k) as -> by congruence.
    apply Hk. apply list_elem_of_fmap. exists (k, rs'). auto.
Qed.

Lemma sync_loop_spec tm h0 G : ∀ st,
  same_static h0 (heap st) → groups_ok h0 G →
  let st' := foldl (process_section tm) st G in
  same_static h0 (heap st') ∧
  assigned st' = assigned st ++ concat (sec_assigned tm h0 <$> G) ∧
  logs st' = logs st ++ concat (sec_logs tm <$> G) ∧
  (∀ r, (∀ k rs, (k, rs) ∈ G → r ∉ rs) → heap st' !! r = heap st !! r) ∧
  (∀ k rs r, (k, rs) ∈ G → r ∈ rs →
     heap st' !! r = heap (process_section tm st (k, rs)) !! r).
Proof.
  induction G as [|[k0 rs0] G IH]; intros st Hst Hok.
  - simpl. rewrite !app_nil_r. repeat split; auto.
    intros k rs r Hin. inversion Hin.
  - change (foldl (process_section tm) st ((k0, rs0) :: G))
      with (foldl (process_section tm) (process_section tm st (k0, rs0)) G).
    rewrite !fmap_cons. cbn [concat]. cbv zeta.
    apply groups_ok_cons in Hok as (Hok & Hnd0 & Hsec0 & Hsep).
    destruct (process_section_spec tm h0 st k0 rs0 Hst Hnd0)
      as (Hst1 & Ha1 & Hl1 & Hout1 & _).
    set (st1 := process_section tm st (k0, rs0)) in *.
    destruct (IH st1 Hst1 Hok) as (Hst' & Ha & Hl & Hout & Hin).
    split; [exact Hst'|].
    split; [rewrite Ha, Ha1, <- app_assoc; reflexivity|].
    split; [rewrite Hl, Hl1, <- app_assoc; reflexivity|].
    split.
    + intros r Hr. rewrite Hout.
      * apply Hout1. apply (Hr k0 rs0). left.
      * intros k rs Hkrs. apply (Hr k rs). right. exact Hkrs.
    + intros k rs r Hkrs Hr. apply elem_of_cons in Hkrs as [Heq|Hkrs].
      * inversion Heq; subst k rs. apply Hout.
        intros k' rs' Hin' Hr'. exact (Hsep k' rs' r Hin' Hr' Hr).
      * rewrite (Hin k rs r Hkrs Hr).
        destruct Hok as [_ Hg]. destruct (Hg k rs Hkrs) as [Hnd _].
        apply (process_section_local tm h0); auto.
        apply Hout1. exact (Hsep k rs r Hkrs Hr).
Qed.

(** *** Grouping by section *)

Lemma setdefault_append_keys d k r :
  (setdefault_append d k r).*1 = if decide (k ∈ d.*1) then d.*1 else d.*1 ++ [k].
Proof.
  induction d as [|[k1 rs1] d IH].
  - simpl. destruct (decide (k ∈ [])) as [Hin|_]; [inversion Hin|reflexivity].
  - cbn [setdefault_append].
    destruct (decide (k1 = k)) as [->|Hne]; rewrite !fmap_cons; cbn [fst].
    + rewrite decide_True by left. reflexivity.
    + rewrite IH. destruct (decide (k ∈ d.*1)) as [Hin|Hin].
      * rewrite decide_True by (right; exact Hin). reflexivity.
      * rewrite decide_False; [reflexivity|].
        intros Hin'. apply elem_of_cons in Hin' as [->|Hin']; contradiction.
Qed.

Lemma setdefault_append_elem d k r k' rs' :
  NoDup d.*1 → (k', rs') ∈ setdefault_append d k r →
  (k' ≠ k ∧ (k', rs') ∈ d) ∨
  (k' = k ∧ ((∃ rs, (k, rs) ∈ d ∧ rs' = rs ++ [r]) ∨ ((k ∉ d.*1) ∧ rs' = [r]))).
Proof.
  induction d as [|[k1 rs1] d IH]; simpl; intros Hnd Hin.
  - apply list_elem_of_singleton in Hin. inversion Hin; subst.
    right. split; [reflexivity|]. right. split; [apply not_elem_of_nil|reflexivity].
  - apply NoDup_cons in Hnd as [Hk1 Hnd].
    destruct (decide (k1 = k)) as [->|Hne].
    + apply elem_of_cons in Hin as [Heq|Hin].
      * inversion Heq; subst. right. split; [reflexivity|]. left.
        exists rs1. split; [left|reflexivity].
      * left. split; [|right; exact Hin].
        intros ->. apply Hk1. apply list_elem_of_fmap. exists (k, rs'). auto.
    + apply elem_of_cons in Hin as [Heq|Hin].
      * inversion Heq; subst. left. split; [exact Hne|left].
      * destruct (IH Hnd Hin) as [[Hne' Hin']|[-> [(rs & Hrs & ->)|[Hk ->]]]].
        -- left. split; [exact Hne'|right; exact Hin'].
        -- right. split; [reflexivity|]. left. exists rs. split; [right; exact Hrs|reflexivity].
        -- right. split; [reflexivity|]. right. split; [|reflexivity].
           intros Hin'. apply elem_of_cons in Hin' as [->|Hin']; contradiction.
Qed.

Lemma filter_snoc_section h k (done : list nat) r :
  filter (λ r, section_of h r = Some k) (done ++ [r])
  = filter (λ r, section_of h r = Some k) done
    ++ (if decide (section_of h r = Some k) then [r] else []).
Proof.
  rewrite filter_app. reflexivity.
Qed.

Lemma group_by_section_inv h refs :
  let G := group_by_section h refs in
  NoDup G.*1 ∧
  (∀ k rs, (k, rs) ∈ G → rs = filter (λ r, section_of h r = Some k) refs) ∧
  (∀ r k, r ∈ refs → section_of h r = Some k → k ∈ G.*1).
Proof.
  unfold group_by_section.
  induction refs as [|r done IH] using rev_ind; simpl.
  - split; [constructor|]. split.
    + intros k rs Hin. inversion Hin.
    + intros r k Hin. inversion Hin.
  - rewrite foldl_snoc.
    set (d := foldl _ [] done) in *. destruct IH as (Hnd & Hent & Hcov).
    destruct (h !! r) as [a|] eqn:Ha.
    + assert (Hsec : section_of h r = Some (section_id a))
        by (unfold section_of; rewrite Ha; reflexivity).
      split; [|split].
      * rewrite setdefault_append_keys.
        destruct (decide (section_id a ∈ d.*1)); [exact Hnd|].
        apply NoDup_app. split; [exact Hnd|]. split; [|apply NoDup_singleton].
        intros k Hk Hk'. apply list_elem_of_singleton in Hk'. subst k. contradiction.
      * intros k rs Hin. rewrite filter_snoc_section.
        apply setdefault_append_elem in Hin
          as [[Hne Hin]|[-> [(rs0 & Hin & ->)|[Hk ->]]]]; [| | |exact Hnd].
        -- rewrite decide_False by congruence. rewrite app_nil_r. auto.
        -- rewrite decide_True by exact Hsec. f_equal. auto.
        -- rewrite decide_True by exact Hsec.
           replace (filter _ done) with (@nil nat); [reflexivity|].
           symmetry. apply elem_of_nil_inv. intros r' Hr'.
           apply list_elem_of_filter in Hr' as [Hs' Hr']. apply Hk. eauto.
      * intros r' k Hin Hs'. rewrite setdefault_append_keys.
        apply elem_of_app in Hin as [Hin|Hin].
        -- destruct (decide (section_id a ∈ d.*1)); [eauto|].
           apply elem_of_app. left. eauto.
        -- apply list_elem_of_singleton in Hin. subst r'.
           assert (k = section_id a) as -> by congruence.
           destruct (decide (section_id a ∈ d.*1)); [assumption|].
           apply elem_of_app. right. left.
    + assert (Hsec : section_of h r = None)
        by (unfold section_of; rewrite Ha; reflexivity).
      split; [exact Hnd|]. split.
      * intros k rs Hin. rewrite filter_snoc_section.
        rewrite decide_False by congruence. rewrite app_nil_r. auto.
      * intros r' k Hin Hs'. apply elem_of_app in Hin as [Hin|Hin]; [eauto|].
        apply list_elem_of_singleton in Hin. subst r'. congruence.
Qed.

(** The groups [assign_timings] iterates over: one per section that has
    an asset, holding that section's assets in input order. *)
Lemma by_section_spec h :
  let G := group_by_section h (seq 0 (length h)) in
  groups_ok h G ∧
  (∀ k rs, (k, rs) ∈ G → rs = section_refs h k) ∧
  (∀ r a, h !! r = Some a → (section_id a, section_refs h (section_id a)) ∈ G).
Proof.
  destruct (group_by_section_inv h (seq 0 (length h))) as (Hnd & Hent & Hcov).
  intros G. split; [|split].
  - split; [exact Hnd|]. intros k rs Hin. rewrite (Hent k rs Hin). split.
    + apply NoDup_filter, NoDup_seq.
    + intros r Hr. apply list_elem_of_filter in Hr. tauto.
  - exact Hent.
  - intros r a Ha.
    assert (Hk : section_id a ∈ G.*1).
    { apply (Hcov r).
      - apply elem_of_seq. apply lookup_lt_Some in Ha. lia.
      - unfold section_of. rewrite Ha. reflexivity. }
    apply list_elem_of_fmap in Hk as ([k rs] & Hk & Hin). simpl in Hk. subst k.
    pose proof (Hent _ _ Hin) as Hrs. subst rs. exact Hin.
Qed.

(** *** The final sort *)

Lemma insert_by_perm key x l : insert_by key x l ≡ₚ x :: l.
Proof.
  induction l as [|y l IH]; simpl; [reflexivity|].
  destruct (Qle_bool (key x) (key y)); [reflexivity|].
  rewrite IH. apply Permutation_swap.
Qed.

Lemma sort_by_perm key l : sort_by key l ≡ₚ l.
Proof.
  induction l as [|x l IH]; simpl; [reflexivity|].
  rewrite insert_by_perm. f_equiv. exact IH.
Qed.

Lemma insert_by_sorted key x l :
  keys_sorted key l → keys_sorted key (insert_by key x l).
Proof.
  induction l as [|y l IH]; simpl; intros Hs.
  - split; constructor.
  - destruct Hs as [Hy Hs].
    destruct (Qle_bool (key x) (key y)) eqn:Hle.
    + apply Qle_bool_iff in Hle. simpl. split; [|split; assumption].
      constructor; [exact Hle|].
      eapply Forall_impl; [exact Hy|]. simpl. intros z Hz. lra.
    + assert (key y <= key x).
      { apply Qlt_le_weak, Qnot_le_lt. rewrite <- Qle_bool_iff. congruence. }
      simpl. split; [|apply IH, Hs].
      rewrite insert_by_perm. constructor; assumption.
Qed.

Lemma sort_by_sorted key l : keys_sorted key (sort_by key l).
Proof.
  induction l as [|x l IH]; simpl; [exact I|]. apply insert_by_sorted, IH.
Qed.

(** The sort is stable: assets with equal keys keep their order. *)
Lemma insert_by_stable key x l (P : nat → Prop) `{∀ y, Decision (P y)} :
  keys_sorted key l → (∀ y, P y → key y == key x) → P x →
  filter P (insert_by key x l) = x :: filter P l.
Proof.
  intros Hs HP Hx. induction l as [|y l IH]; simpl.
  - rewrite filter_cons_True by exact Hx. reflexivity.
  - destruct Hs as [Hy Hs].
    destruct (Qle_bool (key x) (key y)) eqn:Hle.
    + rewrite filter_cons_True by exact Hx. reflexivity.
    + assert (¬ P y).
      { intros Hpy. apply HP in Hpy.
        assert (Qle_bool (key x) (key y) = true); [|congruence].
        apply Qle_bool_iff. rewrite Hpy. apply Qle_refl. }
      rewrite !(filter_cons_False _ y) by assumption. apply IH, Hs.
Qed.

Lemma sort_by_stable key l (P : nat → Prop) `{∀ y, Decision (P y)} (q : Q) :
  (∀ y, P y → key y == q) → filter P (sort_by key l) = filter P l.
Proof.
  intros HP. induction l as [|x l IH]; simpl; [reflexivity|].
  destruct (decide (P x)) as [Hx|Hx].
  - rewrite insert_by_stable; auto using sort_by_sorted.
    + rewrite filter_cons_True by exact Hx. f_equal. exact IH.
    + intros y Hy. rewrite (HP y Hy), (HP x Hx). reflexivity.
  - rewrite filter_cons_False by exact Hx. rewrite <- IH.
    clear IH. induction (sort_by key l) as [|y l' IH']; simpl.
    + rewrite filter_cons_False by exact Hx. reflexivity.
    + destruct (Qle_bool (key x) (key y)).
      * rewrite filter_cons_False by exact Hx. reflexivity.
      * destruct (decide (P y)).
        -- rewrite !(filter_cons_True _ y) by assumption. f_equal. exact IH'.
        -- rewrite !(filter_cons_False _ y) by assumption. exact IH'.
Qed.

(** *** [assign_timings] as a whole *)

Lemma elem_of_concat_fmap {A B} (f : A → list B) (l : list A) (b : B) :
  b ∈ concat (f <$> l) ↔ ∃ x, x ∈ l ∧ b ∈ f x.
Proof.
  induction l as [|x l IH]; simpl.
  - split; [intros Hin; inversion Hin|intros (x & Hin & _); inversion Hin].
  - rewrite elem_of_app, IH. split.
    + intros [Hr|(y & Hy & Hr)]; [exists x; split; [left|exact Hr]|].
      exists y. split; [right; exact Hy|exact Hr].
    + intros (y & Hy & Hr). apply elem_of_cons in Hy as [->|Hy]; eauto.
Qed.

Lemma assign_timings_spec audio_chunks h0 :
  let tm := build_timing_map audio_chunks in
  let G := group_by_section h0 (seq 0 (length h0)) in
  let res := assign_timings script audio_chunks h0 in
  same_static h0 (heap res) ∧
  assigned res ≡ₚ concat (sec_assigned tm h0 <$> G) ∧
  keys_sorted (start_key (heap res)) (assigned res) ∧
  logs res = concat (sec_logs tm <$> G) ++ [Info_assigned (length (assigned res))] ∧
  ∀ r a, h0 !! r = Some a →
    heap res !! r
    = heap (process_section tm (mkSyncState h0 [] [])
              (section_id a, section_refs h0 (section_id a))) !! r.
Proof.
  intros tm G res.
  destruct (by_section_spec h0) as (Hok & Hent & Hcov). fold G in Hok, Hent, Hcov.
  destruct (sync_loop_spec tm h0 G (mkSyncState h0 [] [])
              (same_static_refl h0) Hok) as (Hst & Ha & Hl & _ & Hin).
  unfold res, assign_timings. fold tm. fold G. simpl in *.
  set (st := foldl (process_section tm) (mkSyncState h0 [] []) G) in *.
  split; [exact Hst|]. split; [rewrite sort_by_perm, Ha; reflexivity|].
  split; [apply sort_by_sorted|]. split; [rewrite Hl; reflexivity|].
  intros r a Hr. apply Hin; [apply (Hcov r a Hr)|].
  unfold section_refs. apply list_elem_of_filter. split.
  - unfold section_of. rewrite Hr. reflexivity.
  - apply elem_of_seq. apply lookup_lt_Some in Hr. lia.
Qed.

Lemma has_type_true h t r :
  has_type h t r = true ↔ ∃ a, h !! r = Some a ∧ asset_type a = t.
Proof.
  unfold has_type. destruct (h !! r) as [a|].
  - rewrite bool_decide_eq_true. split; [eauto|]. intros (? & [= <-] & ?). assumption.
  - split; [discriminate|]. intros (? & ? & _). discriminate.
Qed.

Lemma elem_of_section_refs h sid r :
  r ∈ section_refs h sid ↔ ∃ a, h !! r = Some a ∧ section_id a = sid.
Proof.
  unfold section_refs, section_of. rewrite list_elem_of_filter, elem_of_seq. split.
  - intros [Hs _]. destruct (h !! r) as [a|]; [|discriminate].
    inversion Hs. eauto.
  - intros (a & Ha & <-). rewrite Ha. split; [reflexivity|].
    apply lookup_lt_Some in Ha. lia.
Qed.

(** An asset is returned exactly when its section has a timing window and
    it is a title card or a screenshot. *)
Lemma returned_iff audio_chunks h0 r :
  r ∈ assigned (assign_timings script audio_chunks h0) ↔
  ∃ a, h0 !! r = Some a ∧ is_Some (build_timing_map audio_chunks !! section_id a) ∧
       (asset_type a = "title_card" ∨ asset_type a = "screenshot").
Proof.
  destruct (assign_timings_spec audio_chunks h0) as (_ & Hperm & _).
  destruct (by_section_spec h0) as (_ & Hent & Hcov).
  rewrite Hperm, elem_of_concat_fmap. split.
  - intros ([k rs] & Hin & Hr). unfold sec_assigned in Hr. simpl in Hr.
    rewrite (Hent k rs Hin) in Hr.
    destruct (build_timing_map audio_chunks !! k) as [w|] eqn:Hk;
      [|inversion Hr].
    apply elem_of_app in Hr.
    assert (Hsec : r ∈ section_refs h0 k).
    { destruct Hr as [Hr|Hr]; apply list_elem_of_filter in Hr; tauto. }
    apply elem_of_section_refs in Hsec as (a & Ha & <-).
    exists a. split; [exact Ha|]. split; [rewrite Hk; eauto|].
    destruct Hr as [Hr|Hr]; apply list_elem_of_filter in Hr as [Ht _];
      apply has_type_true in Ht as (a' & Ha' & Ht); assert (a' = a) as -> by congruence;
      auto.
  - intros (a & Ha & [w Hw] & Ht).
    exists (section_id a, section_refs h0 (section_id a)).
    split; [apply (Hcov r a Ha)|].
    unfold sec_assigned. simpl. rewrite Hw.
    assert (Hsec : r ∈ section_refs h0 (section_id a))
      by (apply elem_of_section_refs; eauto).
    apply elem_of_app. destruct Ht as [Ht|Ht]; [left|right];
      apply list_elem_of_filter; (split; [|exact Hsec]);
      apply has_type_true; eauto.
Qed.

(** The object an asset has become when [assign_timings] returns. *)
Lemma final_heap audio_chunks h0 r a :
  h0 !! r = Some a →
  let res := assign_timings script audio_chunks h0 in
  match build_timing_map audio_chunks !! section_id a with
  | None => heap res !! r = Some a
  | Some (s, e) =>
      let sss := screenshots_of h0 (section_id a) in
      let cs := s + title_duration s e in
      let per := (e - cs) / Num.of_nat (length sss) in
      (asset_type a = "title_card" →
         heap res !! r
         = Some (set_window s (match sss with [] => e | _ => cs end) a)) ∧
      (∀ j, sss !! j = Some r →
         heap res !! r
         = Some (set_window (cs + Num.of_nat j * per)
                            (cs + Num.of_nat (j + 1) * per) a)) ∧
      (asset_type a ≠ "title_card" → asset_type a ≠ "screenshot" →
         heap res !! r = Some a)
  end.
Proof.
  intros Ha res.
  destruct (assign_timings_spec audio_chunks h0) as (_ & _ & _ & _ & Hv).
  specialize (Hv r a Ha). fold res in Hv. rewrite Hv. clear Hv.
  set (tm := build_timing_map audio_chunks).
  assert (Hnd : NoDup (section_refs h0 (section_id a)))
    by apply NoDup_filter, NoDup_seq.
  destruct (process_section_spec tm h0 (mkSyncState h0 [] []) (section_id a)
              (section_refs h0 (section_id a)) (same_static_refl h0) Hnd)
    as (_ & _ & _ & _ & Hcase).
  assert (Hsec : r ∈ section_refs h0 (section_id a))
    by (apply elem_of_section_refs; eauto).
  cbv zeta in Hcase.
  set (p := process_section tm _ _) in *. clearbody p. cbn [heap] in Hcase.
  destruct (tm !! section_id a) as [[s e]|].
  2:{ rewrite Hcase. exact Ha. }
  destruct Hcase as (Ht & Hs & Ho).
  split; [|split].
  - intros Htype. rewrite Ht, Ha; [reflexivity|].
    apply list_elem_of_filter. split; [|exact Hsec]. apply has_type_true. eauto.
  - intros j Hj. rewrite (Hs j r Hj), Ha. reflexivity.
  - intros Hnt Hns. rewrite Ho, ?Ha; [reflexivity| |].
    + intros Hin. apply list_elem_of_filter in Hin as [Hin _].
      apply has_type_true in Hin as (a' & Ha' & Ht'). congruence.
    + intros Hin. apply list_elem_of_filter in Hin as [Hin _].
      apply has_type_true in Hin as (a' & Ha' & Ht'). congruence.
Qed.

(** *** The timing map *)

Lemma timing_map_None audio_chunks sid :
  build_timing_map audio_chunks !! sid = None ↔
  ∀ c, c ∈ audio_chunks → chunk_section_id c ≠ sid.
Proof.
  unfold build_timing_map.
  induction audio_chunks as [|c l IH] using rev_ind; simpl.
  - rewrite lookup_empty. split; [intros _ c Hc; inversion Hc|reflexivity].
  - rewrite foldl_snoc. destruct (decide (chunk_section_id c = sid)) as [Heq|Hne].
    + rewrite Heq, lookup_insert_eq. split; [discriminate|].
      intros H. exfalso. apply (H c); [|exact Heq].
      apply elem_of_app. right. left.
    + rewrite lookup_insert_ne by exact Hne. rewrite IH. split.
      * intros H c' Hc'. apply elem_of_app in Hc' as [Hc'|Hc']; [auto|].
        apply list_elem_of_singleton in Hc'. subst c'. exact Hne.
      * intros H c' Hc'. apply H. apply elem_of_app. left. exact Hc'.
Qed.

Lemma timing_map_Some audio_chunks sid :
  is_Some (build_timing_map audio_chunks !! sid) ↔
  ∃ c, c ∈ audio_chunks ∧ chunk_section_id c = sid.
Proof.
  rewrite <- not_eq_None_Some, timing_map_None. split.
  - intros H. destruct (decide (Exists (λ c, chunk_section_id c = sid) audio_chunks))
      as [Hex|Hex].
    + apply Exists_exists in Hex. exact Hex.
    + exfalso. apply H. intros c Hc Heq. apply Hex. apply Exists_exists. eauto.
  - intros (c & Hc & Heq) H. exact (H c Hc Heq).
Qed.

Lemma elem_of_returned st a :
  a ∈ returned st ↔ ∃ r, r ∈ assigned st ∧ heap st !! r = Some a.
Proof. unfold returned. apply list_elem_of_omap. Qed.

(** An object keeps its section and type. *)
Lemma final_static audio_chunks h0 r a' :
  heap (assign_timings script audio_chunks h0) !! r = Some a' →
  ∃ a, h0 !! r = Some a ∧ section_id a' = section_id a
       ∧ asset_type a' = asset_type a.
Proof.
  intros Ha'. destruct (assign_timings_spec audio_chunks h0) as (Hs & _).
  specialize (Hs r). rewrite Ha' in Hs. destruct (h0 !! r) as [a|]; [|discriminate].
  exists a. simpl in Hs. inversion Hs. auto.
Qed.



(** C7.  When no audio chunk matches a section, [assign_timings] logs a
    warning for it, leaves the section's assets as they were (no display
    window is written) and out of the returned list, and goes on: every
    title card and screenshot of a section that has a chunk is returned, and
    every returned asset belongs to a section that has one. *)
Theorem missing_timing_skips_section audio_chunks visual_assets sid :
  (∀ c, c ∈ audio_chunks → chunk_section_id c ≠ sid) →
  let res := assign_timings script audio_chunks visual_assets in
  ((∃ a, a ∈ visual_assets ∧ section_id a = sid) →
     Warning_no_timing sid ∈ logs res) ∧
  (∀ r a, visual_assets !! r = Some a → section_id a = sid →
     heap res !! r = Some a ∧ r ∉ assigned res) ∧
  (∀ r a, visual_assets !! r = Some a →
     (∃ c, c ∈ audio_chunks ∧ chunk_section_id c = section_id a) →
     asset_type a = "title_card" ∨ asset_type a = "screenshot" →
     r ∈ assigned res) ∧
  (∀ a, a ∈ returned res →
     section_id a ≠ sid ∧
     ∃ c, c ∈ audio_chunks ∧ chunk_section_id c = section_id a).
Proof.
  intros Hmiss res. apply timing_map_None in Hmiss.
  split; [|split; [|split]].
  - intros (a & Hin & Hsec). apply list_elem_of_lookup_1 in Hin as [r Hr].
    destruct (assign_timings_spec audio_chunks visual_assets) as (_ & _ & _ & Hl & _).
    destruct (by_section_spec visual_assets) as (_ & _ & Hcov).
    fold res in Hl. rewrite Hl. apply elem_of_app. left.
    apply elem_of_concat_fmap.
    exists (section_id a, section_refs visual_assets (section_id a)).
    split; [exact (Hcov r a Hr)|].
    unfold sec_logs; simpl. rewrite Hsec, Hmiss. left.
  - intros r a Ha Hsec. split.
    + pose proof (final_heap audio_chunks visual_assets r a Ha) as Hf.
      cbv zeta in Hf. rewrite Hsec, Hmiss in Hf. exact Hf.
    + intros Hin. apply returned_iff in Hin as (a' & Ha' & [w Hw] & _).
      assert (a' = a) as -> by congruence. rewrite Hsec, Hmiss in Hw. discriminate.
  - intros r a Ha Hc Ht. apply returned_iff. exists a.
    split; [exact Ha|]. split; [apply timing_map_Some; exact Hc|exact Ht].
  - intros a' Hin. apply elem_of_returned in Hin as (r & Hr & Ha').
    apply returned_iff in Hr as (a & Ha & Hw & _).
    destruct (final_static _ _ _ _ Ha') as (a0 & Ha0 & Hsec & _).
    assert (a0 = a) as -> by congruence. rewrite Hsec. split.
    + intros Heq. rewrite Heq, Hmiss in Hw. destruct Hw; discriminate.
    + apply timing_map_Some. exact Hw.
Qed.

(** C9.  Only title cards and screenshots are returned.  An asset of any
    other type is left as it was, with no display window written, and is
    not in the returned list, whether or not its section has a timing
    window. *)
Theorem only_title_cards_and_screenshots audio_chunks visual_assets :
  let res := assign_timings script audio_chunks visual_assets in
  (∀ a, a ∈ returned res →
     asset_type a = "title_card" ∨ asset_type a = "screenshot") ∧
  (∀ r a, visual_assets !! r = Some a →
     asset_type a ≠ "title_card" → asset_type a ≠ "screenshot" →
     heap res !! r = Some a ∧ r ∉ assigned res).
Proof.
  intros res. split.
  - intros a' Hin. apply elem_of_returned in Hin as (r & Hr & Ha').
    apply returned_iff in Hr as (a & Ha & _ & Ht).
    destruct (final_static _ _ _ _ Ha') as (a0 & Ha0 & _ & Htype).
    assert (a0 = a) as -> by congruence. rewrite Htype. exact Ht.
  - intros r a Ha Hnt Hns. split.
    + pose proof (final_heap audio_chunks visual_assets r a Ha) as Hf.
      cbv zeta in Hf.
      destruct (build_timing_map audio_chunks !! section_id a) as [[s e]|];
        [|exact Hf].
      destruct Hf as (_ & _ & Hf). exact (Hf Hnt Hns).
    + intros Hin. apply returned_iff in Hin as (a' & Ha' & _ & Ht).
      assert (a' = a) as -> by congruence. tauto.
Qed.

(** *** The windows of one section *)

Lemma sorted_windows h (P : VisualAsset → Prop) `{∀ a, Decision (P a)} l :
  keys_sorted (start_key h) l →
  sorted_by_start (window <$> filter P (omap (λ r, h !! r) l)).
Proof.
  induction l as [|r l IH]; simpl; intros Hs; [exact I|].
  destruct Hs as [Hr Hs]. specialize (IH Hs).
  destruct (h !! r) as [a|] eqn:Ha; [|exact IH].
  destruct (decide (P a)) as [Hp|Hp].
  - rewrite filter_cons_True by exact Hp. simpl. split; [|exact IH].
    apply Forall_forall. intros w Hw.
    apply list_elem_of_fmap in Hw as (a' & -> & Ha').
    apply list_elem_of_filter in Ha' as [_ Ha'].
    apply list_elem_of_omap in Ha' as (r' & Hr' & Ha').
    rewrite Forall_forall in Hr. specialize (Hr r' Hr').
    unfold start_key in Hr. rewrite Ha, Ha' in Hr. exact Hr.
  - rewrite filter_cons_False by exact Hp. exact IH.
Qed.

Lemma omap_cons_Some h r a (l : list nat) :
  h !! r = Some a →
  omap (λ r, h !! r) (r :: l) = a :: omap (λ r, h !! r) l.
Proof. intros Ha. simpl. rewrite Ha. reflexivity. Qed.



Lemma filter_all {A} (P : A → Prop) `{∀ x, Decision (P x)} (l : list A) :
  (∀ x, x ∈ l → P x) → filter P l = l.
Proof.
  induction l as [|x l IH]; intros Hall; [reflexivity|].
  rewrite filter_cons_True by (apply Hall; left).
  f_equal. apply IH. intros y Hy. apply Hall. right. exact Hy.
Qed.


Lemma sec_assigned_sections tm h k rs r :
  (∀ r, r ∈ rs → section_of h r = Some k) →
  r ∈ sec_assigned tm h (k, rs) → section_of h r = Some k.
Proof.
  intros Hsec. unfold sec_assigned; simpl.
  destruct (tm !! k); [|intros Hin; inversion Hin].
  intros Hin. apply elem_of_app in Hin as [Hin|Hin];
    apply list_elem_of_filter in Hin as [_ Hin]; auto.
Qed.



(** *** Tiling *)


















End SyncFacts.

(** The example of the specification: a 40s section with a title card and
    four screenshots. *)
Example screenshot_distribution :
  let audio_chunks := [Demo.chunk "s1" 0 40] in
  let visual_assets := [Demo.asset "s1" "title_card" "t.png";
                        Demo.asset "s1" "screenshot" "a.png";
                        Demo.asset "s1" "screenshot" "b.png";
                        Demo.asset "s1" "screenshot" "c.png";
                        Demo.asset "s1" "screenshot" "d.png"] in
  Forall2 (λ w v, w.1 == v.1 ∧ w.2 == v.2)
    (Sync.section_windows (Sync.assign_timings Demo.script audio_chunks visual_assets) "s1")
    [(0, 3); (3, 12.25); (12.25, 21.5); (21.5, 30.75); (30.75, 40)].
Proof. repeat constructor. Qed.


(** Two title cards in a section get the same window. *)
Lemma two_title_cards_overlap :
  let audio_chunks := [Demo.chunk "s1" 0 10] in
  let visual_assets := [Demo.asset "s1" "title_card" "a.png";
                        Demo.asset "s1" "title_card" "b.png"] in
  ¬ Sync.pairwise_disjoint
      (Sync.section_windows (Sync.assign_timings Demo.script audio_chunks visual_assets) "s1").
Proof.
  intros audio_chunks visual_assets.
  assert (Hw : Sync.section_windows
                 (Sync.assign_timings Demo.script audio_chunks visual_assets) "s1"
               = [(0, 10); (0, 10)]) by reflexivity.
  rewrite Hw. intros [H _]. apply Forall_cons in H as [H _].
  apply (H 0). split; split; simpl; lra.
Qed.



Lemma missing_timing_witness :
  let audio_chunks := [Demo.chunk "s1" 0 10] in
  let visual_assets := [Demo.asset "s2" "title_card" "u.png";
                        Demo.asset "s2" "screenshot" "a.png";
                        Demo.asset "s1" "title_card" "t.png"] in
  let res := Sync.assign_timings Demo.script audio_chunks visual_assets in
  Sync.Warning_no_timing "s2" ∈ Sync.logs res ∧
  Sync.heap res !! 1%nat = Some (Demo.asset "s2" "screenshot" "a.png") ∧
  (1%nat ∉ Sync.assigned res) ∧
  2%nat ∈ Sync.assigned res.
Proof.
  intros audio_chunks visual_assets res.
  destruct (missing_timing_skips_section Demo.script audio_chunks visual_assets "s2")
    as (Hlog & Hskip & Hrest & _).
  { intros c Hc. apply list_elem_of_singleton in Hc. subst c. discriminate. }
  split; [|split; [|split]].
  - apply Hlog. exists (Demo.asset "s2" "title_card" "u.png"). split; [left|reflexivity].
  - apply (Hskip 1%nat); reflexivity.
  - apply (Hskip 1%nat (Demo.asset "s2" "screenshot" "a.png")); reflexivity.
  - apply (Hrest 2%nat (Demo.asset "s1" "title_card" "t.png")).
    + reflexivity.
    + exists (Demo.chunk "s1" 0 10). split; [left|reflexivity].
    + left. reflexivity.
Defined.

Lemma only_title_cards_and_screenshots_witness :
  let audio_chunks := [Demo.chunk "s1" 0 10] in
  let visual_assets := [Demo.asset "s1" "title_card" "t.png";
                        Demo.asset "s1" "generated" "g.png";
                        Demo.asset "s1" "screenshot" "a.png"] in
  let res := Sync.assign_timings Demo.script audio_chunks visual_assets in
  Sync.heap res !! 1%nat = Some (Demo.asset "s1" "generated" "g.png") ∧
  1%nat ∉ Sync.assigned res.
Proof.
  intros audio_chunks visual_assets res.
  destruct (only_title_cards_and_screenshots Demo.script audio_chunks visual_assets) as [_ H].
  apply (H 1%nat (Demo.asset "s1" "generated" "g.png")).
  - reflexivity.
  - discriminate.
  - discriminate.
Defined.

(** ** Agreement with binary64 on the examples *)

#[local] Set Warnings "-inexact-float".

(** The drift test gives the same verdicts on floats: [abs(61.3 - 60.0)] is
    1.2999999999999972 there. *)
Example ieee_drift :
  Ieee.drift_exceeds 61.3 60.0 1.0 = true ∧ Ieee.drift_exceeds 58.5 60.0 1.0 = true.
Proof. split; reflexivity. Qed.

(** The crossfade offsets printed from floats are those of the model. *)
Example ieee_xfade_offsets :
  Ieee.printed 3 <$> Ieee.xfade_cums 0.0 0.5 [5.0; 5.0]%float
  = Some ∘ Video.offset_value
      <$> Video.xfade_parts Demo.cfg [("a", 5.0); ("b", 5.0); ("c", 5.0)].
Proof. vm_compute. reflexivity. Qed.

(** So is the zoom expression of the slow_push_in example. *)
Example ieee_zoom_slope :
  Ieee.zoom_is_constant 1.0 1.08 0.5 = false ∧
  Motion.zoom_expr Demo.engine (Motion.mkPreset 1.0 1.08 0 0 0 0) 3.0 0.5
  = [Proc.Dec 4 1.0; Proc.Lit "+";
     Proc.Dec 8 ((1.0 + (1.08 - 1.0) * 0.5 - 1.0) / inject_Z 90); Proc.Lit "*on"] ∧
  Ieee.printed 8 (Ieee.zoom_slope 1.0 1.08 0.5 90)
  = Some (Num.fmt_dec 8 ((1.0 + (1.08 - 1.0) * 0.5 - 1.0) / inject_Z 90)).
Proof. split; [|split]; vm_compute; reflexivity. Qed.

(** And the windows of the 40s section with four screenshots. *)
Example ieee_screenshot_windows :
  Ieee.title_end 0 40 = 3%float ∧
  (λ i, Ieee.screenshot_window 0 40 4 i) <$> [0; 1; 2; 3]%float
  = [(3, 12.25); (12.25, 21.5); (21.5, 30.75); (30.75, 40)]%float.
Proof. split; reflexivity. Qed.

(** * Further properties *)

(** ** Timing allocation: the returned list as a whole *)

Section SyncMore.
Import Sync.
Context (script : VideoScript).

Implicit Types (h : list VisualAsset) (r : nat) (a : VisualAsset).

Lemma static_set_window a a' :
  static a' = static a → a' = set_window (display_start a') (display_end a') a.
Proof.
  destruct a, a'. unfold static; simpl. intros [= -> -> -> -> ->]. reflexivity.
Qed.

(** X1.  [assign_timings] writes nothing but [display_start] and
    [display_end]: the caller's list keeps its length, and each object is
    the object it was, with at most these two fields changed. *)
Theorem assign_timings_writes_only_windows audio_chunks visual_assets :
  let res := assign_timings script audio_chunks visual_assets in
  length (heap res) = length visual_assets ∧
  ∀ r a, visual_assets !! r = Some a →
    ∃ d_start d_end, heap res !! r = Some (set_window d_start d_end a).
Proof.
  intros res.
  destruct (assign_timings_spec script audio_chunks visual_assets) as (Hs & _).
  fold res in Hs. split; [apply same_static_length, Hs|].
  intros r a Ha. specialize (Hs r). rewrite Ha in Hs.
  destruct (heap res !! r) as [a'|]; [|discriminate].
  simpl in Hs. assert (Hst : static a' = static a) by congruence.
  exists (display_start a'), (display_end a'). f_equal.
  apply static_set_window. exact Hst.
Qed.

Lemma sec_assigned_NoDup tm h k rs : NoDup rs → NoDup (sec_assigned tm h (k, rs)).
Proof.
  intros Hnd. unfold sec_assigned; simpl. destruct (tm !! k); [|constructor].
  apply NoDup_app. split; [apply NoDup_filter, Hnd|].
  split; [|apply NoDup_filter, Hnd].
  intros r Hr. apply (tcs_sss_disjoint h rs r Hr).
Qed.

Lemma concat_groups_NoDup tm h G :
  groups_ok h G → NoDup (concat (sec_assigned tm h <$> G)).
Proof.
  induction G as [|[k rs] G IH]; intros Hok; [constructor|].
  pose proof Hok as [Hnd _]. simpl in Hnd. apply NoDup_cons in Hnd as [Hk _].
  apply groups_ok_cons in Hok as (Hok & Hrs & Hsec & _).
  rewrite fmap_cons. cbn [concat]. apply NoDup_app.
  split; [apply sec_assigned_NoDup, Hrs|]. split; [|apply IH, Hok].
  intros r Hr Hr'.
  apply (sec_assigned_sections tm h k rs r Hsec) in Hr.
  apply elem_of_concat_fmap in Hr' as ([k' rs'] & Hin & Hr').
  destruct Hok as [_ Hg]. destruct (Hg k' rs' Hin) as [_ Hsec'].
  apply (sec_assigned_sections tm h k' rs' r Hsec') in Hr'.
  assert (k' = k) as -> by congruence.
  apply Hk. apply list_elem_of_fmap. exists (k, rs'). auto.
Qed.

(** X2.  The returned list is sorted by [display_start] and holds no
    asset twice; its members are exactly the title cards and screenshots of
    the sections that have an audio chunk. *)
Theorem returned_sorted_without_repeats audio_chunks visual_assets :
  let res := assign_timings script audio_chunks visual_assets in
  sorted_by_start (window <$> returned res) ∧
  NoDup (assigned res) ∧
  length (returned res) = length (assigned res) ∧
  ∀ r, r ∈ assigned res ↔
       ∃ a, visual_assets !! r = Some a ∧
            (∃ c, c ∈ audio_chunks ∧ chunk_section_id c = section_id a) ∧
            (asset_type a = "title_card" ∨ asset_type a = "screenshot").
Proof.
  intros res.
  destruct (assign_timings_spec script audio_chunks visual_assets)
    as (Hst & Hperm & Hsorted & _).
  fold res in Hst, Hperm, Hsorted.
  destruct (by_section_spec visual_assets) as (Hok & _).
  assert (Hin : ∀ r, r ∈ assigned res → is_Some (heap res !! r)).
  { intros r Hr. apply (returned_iff script) in Hr as (a & Ha & _).
    specialize (Hst r). rewrite Ha in Hst.
    destruct (heap res !! r); [eauto|discriminate]. }
  split; [|split; [|split]].
  - pose proof (sorted_windows (heap res) (λ _, True) (assigned res) Hsorted) as H.
    rewrite filter_all in H by auto. exact H.
  - rewrite Hperm. apply concat_groups_NoDup, Hok.
  - unfold returned. clear Hperm Hsorted.
    induction (assigned res) as [|r l IH]; [reflexivity|].
    destruct (Hin r) as [a Ha]; [left|].
    rewrite (omap_cons_Some _ _ _ _ Ha). simpl. f_equal.
    apply IH. intros r' Hr'. apply Hin. right. exact Hr'.
  - intros r. unfold res. rewrite (returned_iff script). split.
    + intros (a & Ha & Htm & Ht). exists a. rewrite <- timing_map_Some. auto.
    + intros (a & Ha & Htm & Ht). exists a. rewrite timing_map_Some. auto.
Qed.




(** X5.  When several audio chunks carry the same section id, the last of
    them decides the section's window. *)
Theorem last_chunk_decides_window before c after :
  (∀ c', c' ∈ after → chunk_section_id c' ≠ chunk_section_id c) →
  build_timing_map (before ++ c :: after) !! chunk_section_id c
  = Some (start_time c, start_time c + duration_seconds c).
Proof.
  unfold build_timing_map.
  induction after as [|c' after IH] using rev_ind; intros Hafter.
  - rewrite foldl_snoc. apply lookup_insert_eq.
  - replace (before ++ c :: after ++ [c']) with ((before ++ c :: after) ++ [c'])
      by (rewrite <- app_assoc; reflexivity).
    rewrite foldl_snoc, lookup_insert_ne.
    + apply IH. intros c'' Hc''. apply Hafter. apply elem_of_app. left. exact Hc''.
    + apply Hafter. apply elem_of_app. right. left.
Qed.

End SyncMore.

Lemma assign_timings_writes_only_windows_witness :
  let audio_chunks := [Demo.chunk "s1" 0 40] in
  let visual_assets := [Demo.asset "s1" "title_card" "t.png";
                        Demo.asset "s2" "screenshot" "a.png"] in
  let res := Sync.assign_timings Demo.script audio_chunks visual_assets in
  length (Sync.heap res) = 2%nat ∧
  ∃ d_start d_end,
    Sync.heap res !! 1%nat
    = Some (Sync.set_window d_start d_end (Demo.asset "s2" "screenshot" "a.png")).
Proof.
  intros audio_chunks visual_assets res.
  pose proof (assign_timings_writes_only_windows Demo.script audio_chunks visual_assets) as H.
  cbv zeta in H. destruct H as [Hlen H]. split; [exact Hlen|].
  apply (H 1%nat). reflexivity.
Defined.

Lemma returned_sorted_without_repeats_witness :
  let audio_chunks := [Demo.chunk "s1" 0 40; Demo.chunk "s2" 40 10] in
  let visual_assets := [Demo.asset "s2" "title_card" "u.png";
                        Demo.asset "s1" "screenshot" "a.png";
                        Demo.asset "s3" "title_card" "v.png"] in
  let res := Sync.assign_timings Demo.script audio_chunks visual_assets in
  Sync.sorted_by_start (Sync.window <$> Sync.returned res) ∧
  1%nat ∈ Sync.assigned res.
Proof.
  intros audio_chunks visual_assets res.
  pose proof (returned_sorted_without_repeats Demo.script audio_chunks visual_assets) as H.
  cbv zeta in H. destruct H as (Hsorted & _ & _ & H). split; [exact Hsorted|].
  apply H. exists (Demo.asset "s1" "screenshot" "a.png").
  split; [reflexivity|]. split.
  - exists (Demo.chunk "s1" 0 40). split; [left|reflexivity].
  - right. reflexivity.
Defined.



Lemma last_chunk_decides_window_witness :
  Sync.build_timing_map [Demo.chunk "s1" 0 40; Demo.chunk "s1" 7 3; Demo.chunk "s2" 10 5]
    !! "s1" = Some (7, 7 + 3).
Proof.
  apply (last_chunk_decides_window [Demo.chunk "s1" 0 40] (Demo.chunk "s1" 7 3)
           [Demo.chunk "s2" 10 5]).
  intros c' Hc'. apply list_elem_of_singleton in Hc' as ->. discriminate.
Defined.

(** ** Motion engine: failure, still frames, canvas and atmosphere *)

Section MotionMore.
Import Proc Motion MotionAuto.
Context {E : Env}.



Lemma int_trunc_floor q : 0 <= q → Num.int_trunc q = Qfloor q.
Proof.
  destruct q as [n dn]. unfold Qle, Num.int_trunc, Qfloor; simpl. intros H.
  apply Z.quot_div_nonneg; lia.
Qed.

Lemma int_trunc_ceiling q : q <= 0 → Num.int_trunc q = Qceiling q.
Proof.
  destruct q as [n dn]. unfold Qle, Num.int_trunc, Qceiling, Qfloor; simpl. intros H.
  rewrite <- (Z.opp_involutive n) at 1.
  rewrite Z.quot_opp_l, Z.quot_div_nonneg by lia. reflexivity.
Qed.

Lemma int_trunc_comp q q' : q == q' → Num.int_trunc q = Num.int_trunc q'.
Proof.
  intros Heq. destruct (Qlt_le_dec q 0) as [Hneg|Hpos].
  - rewrite !int_trunc_ceiling by (rewrite <- ?Heq; lra).
    apply Qceiling_comp. exact Heq.
  - rewrite !int_trunc_floor by (rewrite <- ?Heq; lra).
    apply Qfloor_comp. exact Heq.
Qed.

Lemma int_trunc_mul_0 z : Num.int_trunc (inject_Z z * 0) = 0%Z.
Proof. unfold Num.int_trunc; simpl. rewrite Z.mul_0_r. reflexivity. Qed.

Lemma even_up_even z : (even_up z mod 2 = 0)%Z.
Proof.
  unfold even_up. pose proof (Z.mod_pos_bound z 2 eq_refl).
  rewrite Z.add_mod, Z.mod_mod by lia.
  assert (z mod 2 = 0 ∨ z mod 2 = 1)%Z as [->| ->] by lia; reflexivity.
Qed.

Lemma even_up_le z : (z ≤ even_up z)%Z.
Proof. unfold even_up. pose proof (Z.mod_pos_bound z 2 eq_refl). lia. Qed.

Lemma scaled_ge (n : Z) (zoom : Q) :
  (0 ≤ n)%Z → 1 <= zoom → (n ≤ Num.int_trunc (inject_Z n * zoom * 1.1))%Z.
Proof.
  intros Hn Hz.
  assert (H0 : 0 <= inject_Z n) by (change 0 with (inject_Z 0); rewrite <- Zle_Qle; lia).
  assert (Hle : inject_Z n <= inject_Z n * zoom * 1.1) by nra.
  rewrite int_trunc_floor by lra.
  rewrite <- (Qfloor_Z n) at 1. apply Qfloor_resp_le. exact Hle.
Qed.

(** X7.  At intensity 0 no preset moves: the filter holds the zoom at
    [zoom_start], written with four decimals and without a term in the
    frame number, and keeps the crop centred on both axes. *)
Theorem zero_intensity_is_still self p d :
  _build_motion_filter self p d 0
  = let zs := zoom_start p in
    let scale_w := even_up (Num.int_trunc (inject_Z (width self) * zs * 1.1)) in
    let scale_h := even_up (Num.int_trunc (inject_Z (height self) * zs * 1.1)) in
    [Lit "scale="; Int scale_w; Lit ":"; Int scale_h;
     Lit ":force_original_aspect_ratio=decrease,";
     Lit "pad="; Int scale_w; Lit ":"; Int scale_h; Lit ":(ow-iw)/2:(oh-ih)/2:black,";
     Lit "zoompan=z='"; Dec 4 zs;
     Lit "':x='"; Lit "iw"; Lit "/2-("; Lit "iw"; Lit "/zoom/2)";
     Lit "':y='"; Lit "ih"; Lit "/2-("; Lit "ih"; Lit "/zoom/2)";
     Lit "':"; Lit "d="; Int (total_frames self d); Lit ":s="; Int (width self);
     Lit "x"; Int (height self); Lit ":fps="; Int (fps self)].
Proof.
  unfold _build_motion_filter, zoom_expr. cbv zeta.
  rewrite !int_trunc_mul_0. simpl pan_expr.
  set (zs := zoom_start p). set (ze := zs + (zoom_end p - zs) * 0).
  assert (Hze : ze == zs) by (unfold ze; ring).
  assert (Hlt : Num.ltb (Qabs (ze - zs)) 0.001 = true).
  { apply ltb_lt. rewrite Hze.
    assert (H0 : zs - zs == 0) by ring. rewrite H0. reflexivity. }
  rewrite Hlt.
  assert (Hmax : ∀ n, Num.int_trunc (inject_Z n * Qmax zs ze * 1.1)
                      = Num.int_trunc (inject_Z n * zs * 1.1)).
  { intros n. apply int_trunc_comp.
    destruct (Q.max_spec zs ze) as [[_ Hm]|[_ Hm]]; rewrite Hm, ?Hze; reflexivity. }
  rewrite !Hmax. reflexivity.
Qed.

(** X8.  The input is scaled to even dimensions, as yuv420p needs, and for
    a preset that starts at zoom 1 or more and a canvas of non-negative size
    the scaled image is at least as large as the canvas cut out of it. *)
Theorem scaled_canvas_even_and_large self p d i :
  ∃ scale_w scale_h rest,
    _build_motion_filter self p d i
    = Lit "scale=" :: Int scale_w :: Lit ":" :: Int scale_h :: rest ∧
    (scale_w mod 2 = 0)%Z ∧ (scale_h mod 2 = 0)%Z ∧
    (1 <= zoom_start p → (0 ≤ width self)%Z → (width self ≤ scale_w)%Z) ∧
    (1 <= zoom_start p → (0 ≤ height self)%Z → (height self ≤ scale_h)%Z).
Proof.
  unfold _build_motion_filter. cbv zeta.
  do 3 eexists. split; [reflexivity|].
  split; [apply even_up_even|]. split; [apply even_up_even|].
  split; intros Hz Hn; (etransitivity; [|apply even_up_le]);
    apply scaled_ge; try exact Hn;
    (eapply Qle_trans; [exact Hz|apply Q.le_max_l]).
Qed.

Lemma atmosphere_filter_nil atm d i :
  _build_atmosphere_filter atm d i = [] ↔ atm ∉ known_atmospheres.
Proof.
  split.
  - intros Hnil Hin. unfold known_atmospheres in Hin. set_unfold in Hin.
    destruct Hin as [->|[->|[->|[->|[->|[]]]]]]; discriminate Hnil.
  - intros Hn. unfold _build_atmosphere_filter.
    destruct (bool_decide (atm = "none") || bool_decide (atm = "")); [reflexivity|].
    cbv zeta.
    repeat (case_bool_decide as Hx;
            [exfalso; apply Hn; rewrite Hx; unfold known_atmospheres; set_solver
            |clear Hx]).
    reflexivity.
Qed.

(** X9.  The atmosphere filter is empty exactly for the names that are none
    of the five effects (among them "none" and the empty string); with such
    a name the clip is rendered exactly as with "none", the motion filter
    standing alone. *)
Theorem unknown_atmosphere_is_none atm d i :
  (_build_atmosphere_filter atm d i = [] ↔ atm ∉ known_atmospheres) ∧
  (atm ∉ known_atmospheres →
   ∀ self frame out motion (st : PState E) p,
     clip_filter self p d atm i = _build_motion_filter self p d i ∧
     render_animated_clip self frame out d motion atm i st
     = render_animated_clip self frame out d motion "none" i st).
Proof.
  split; [apply atmosphere_filter_nil|]. intros Hun self frame out motion st p.
  apply atmosphere_filter_nil with (d := d) (i := i) in Hun.
  assert (Hf : ∀ q, clip_filter self q d atm i = clip_filter self q d "none" i).
  { intros q. unfold clip_filter. rewrite Hun. reflexivity. }
  split; [unfold clip_filter; rewrite Hun; reflexivity|].
  unfold render_animated_clip.
  destruct (MOTION_PRESETS !! _); [|reflexivity].
  rewrite Hf. reflexivity.
Qed.

(** X10.  The strength of an atmosphere effect is clamped to [0.05, 1]:
    every intensity of 1 or more gives the filter of 1.0, every intensity of
    0.05 or less the filter of 0.05, and the clip duration plays no part. *)
Theorem atmosphere_intensity_clamped atm d d' i :
  (1 <= i → _build_atmosphere_filter atm d i = _build_atmosphere_filter atm d' 1.0) ∧
  (i <= 0.05 → _build_atmosphere_filter atm d i = _build_atmosphere_filter atm d' 0.05).
Proof.
  unfold _build_atmosphere_filter. split; intros Hi.
  - assert (Hc : Qmax 0.05 (Qmin 1.0 i) = Qmax 0.05 (Qmin 1.0 1.0)).
    { unfold Qmin, GenericMinMax.gmin.
      destruct (1.0 ?= i) eqn:Hcmp; try reflexivity.
      apply Qgt_alt in Hcmp. lra. }
    rewrite Hc. reflexivity.
  - assert (Hc : Qmax 0.05 (Qmin 1.0 i) = Qmax 0.05 (Qmin 1.0 0.05)).
    { unfold Qmin, Qmax, GenericMinMax.gmin, GenericMinMax.gmax.
      destruct (1.0 ?= i) eqn:Hcmp;
        [apply Qeq_alt in Hcmp; lra | apply Qlt_alt in Hcmp; lra |].
      change (1.0 ?= 0.05) with Gt. cbv iota.
      destruct (0.05 ?= i) eqn:Hcmp'; try reflexivity.
      apply Qlt_alt in Hcmp'. lra. }
    rewrite Hc. reflexivity.
Qed.

End MotionMore.

(** ** Selection tables *)

Section SelectorFacts.
Import Motion MotionAuto Selector.

Lemma default_lookup_in {K V} `{Countable K} (l : list (K * V)) (d : V) (k : K) :
  default d ((list_to_map l : gmap K V) !! k) ∈ d :: l.*2.
Proof.
  destruct (_ !! k) as [v|] eqn:Hk; simpl; [|left].
  right. apply elem_of_list_to_map_2 in Hk.
  apply list_elem_of_fmap. exists (k, v). split; [reflexivity|exact Hk].
Qed.

Lemma given_None : given None = None.
Proof. reflexivity. Qed.

Lemma given_Some o : o ≠ "" → given (Some o) = Some o.
Proof. intros Ho. unfold given. rewrite bool_decide_eq_false_2; auto. Qed.

(** X11.  Without an override the selectors only name motions that
    [MOTION_PRESETS] has, so the engine's default is never needed for them:
    [select_motion] for every section type, asset type and drawn index, and
    [auto_select_motion] for every section and asset type.  A title card is
    always "static" for [select_motion]; a non-empty override is returned
    as it is. *)
Theorem selected_motion_is_a_preset section_type asset_type draw :
  (draw < length valid_screenshot_motions)%nat →
  is_Some (MOTION_PRESETS !! select_motion section_type asset_type None draw) ∧
  is_Some (MOTION_PRESETS !! auto_select_motion section_type asset_type) ∧
  (asset_type = "title_card" →
   select_motion section_type asset_type None draw = "static") ∧
  (∀ o, o ≠ "" → select_motion section_type asset_type (Some o) draw = o).
Proof.
  intros Hdraw.
  assert (Hsel : ∀ k, is_Some (MOTION_PRESETS !!
                                 default "slow_push_in" (Selector.SECTION_MOTION_MAP !! k))).
  { intros k. unfold Selector.SECTION_MOTION_MAP.
    pose proof (default_lookup_in
                  [("intro", "slow_push_in"); ("main", "drift_left");
                   ("demo", "slow_pull_out"); ("deep_dive", "diagonal_float");
                   ("comparison", "static"); ("conclusion", "slow_pull_out")]
                  "slow_push_in" k) as Hin.
    set (v := default _ _) in *. clearbody v. simpl in Hin. set_unfold in Hin.
    destruct Hin as [->|[->|[->|[->|[->|[->|[->|[]]]]]]]]; eexists; reflexivity. }
  split; [|split; [|split]].
  - unfold select_motion. rewrite given_None.
    repeat case_bool_decide; [eexists; reflexivity| |apply Hsel].
    unfold random_choice, valid_screenshot_motions in *. simpl in Hdraw.
    destruct draw as [|[|[|[|[|?]]]]]; try lia; eexists; reflexivity.
  - unfold auto_select_motion. case_bool_decide; [|eexists; reflexivity].
    apply Hsel.
  - intros ->. reflexivity.
  - intros o Ho. unfold select_motion. rewrite given_Some by exact Ho. reflexivity.
Qed.

(** X12.  Without an override the selectors only name "none" or one of the
    five atmospheres the engine has a filter for, whatever the template
    name; so the atmosphere filter of a selected name is empty only for
    "none".  A non-empty override is returned as it is, an empty one counts
    as none given. *)
Theorem selected_atmosphere_is_known template_name section_type d i :
  select_atmosphere template_name None ∈ "none" :: known_atmospheres ∧
  auto_select_atmosphere template_name section_type ∈ "none" :: known_atmospheres ∧
  (_build_atmosphere_filter (select_atmosphere template_name None) d i = []
   ↔ select_atmosphere template_name None = "none") ∧
  (∀ o, o ≠ "" → select_atmosphere template_name (Some o) = o) ∧
  select_atmosphere template_name (Some "") = select_atmosphere template_name None.
Proof.
  assert (H1 : select_atmosphere template_name None ∈ "none" :: known_atmospheres).
  { unfold select_atmosphere, Selector.TEMPLATE_ATMOSPHERE_MAP. rewrite given_None.
    match goal with
    | |- default ?dflt (list_to_map ?l !! ?k) ∈ _ =>
        pose proof (default_lookup_in l dflt k) as Hin
    end.
    set (v := default _ _) in *. clearbody v. simpl in Hin.
    unfold known_atmospheres. set_unfold in Hin. set_unfold. tauto. }
  split; [exact H1|]. split.
  { unfold auto_select_atmosphere, MotionAuto.TEMPLATE_ATMOSPHERE_MAP.
    match goal with
    | |- default ?dflt (list_to_map ?l !! ?k) ∈ _ =>
        pose proof (default_lookup_in l dflt k) as Hin
    end.
    set (v := default _ _) in *. clearbody v. simpl in Hin.
    unfold known_atmospheres. set_unfold in Hin. set_unfold. tauto. }
  split.
  { rewrite atmosphere_filter_nil.
    set (v := select_atmosphere template_name None) in *. clearbody v.
    unfold known_atmospheres in *. split.
    - intros Hn. set_unfold in H1. set_unfold in Hn. tauto.
    - intros ->. set_unfold. intros H. repeat destruct H as [H|H]; discriminate || done. }
  split.
  - intros o Ho. unfold select_atmosphere. rewrite given_Some by exact Ho. reflexivity.
  - reflexivity.
Qed.

Lemma template_lookup section_type asset_type v :
  SECTION_TEMPLATE_MAP !! (section_type, asset_type) = Some v →
  (asset_type = "title_card" ∧
   v ∈ ["neon_pulse"; "split_reveal"; "typewriter_reveal"; "glitch_drop";
        "countdown_slam"]) ∨
  (asset_type = "screenshot" ∧
   v ∈ ["spotlight_zoom"; "browser_mockup"; "dashboard_reveal"; "comparison_split";
        "polaroid_drop"]).
Proof.
  intros Hk. unfold SECTION_TEMPLATE_MAP in Hk.
  apply elem_of_list_to_map_2 in Hk. set_unfold in Hk.
  repeat (destruct Hk as [Hk|Hk]; [inversion Hk; subst; set_solver|]).
  destruct Hk.
Qed.

Lemma kinetic_templates :
  templates_of "kinetic"
  = ["typewriter_reveal"; "split_reveal"; "glitch_drop"; "neon_pulse"; "countdown_slam"].
Proof. reflexivity. Qed.

Lemma showcase_templates :
  templates_of "showcase"
  = ["browser_mockup"; "phone_frame_scroll"; "spotlight_zoom"; "comparison_split";
     "polaroid_drop"; "dashboard_reveal"].
Proof. reflexivity. Qed.

(** X13.  [select_template] returns a non-empty override as it is and
    treats an empty one as none given.  Without an override the name is
    always one the renderer has a class for: a "kinetic" template for a title
    card, a "showcase" template for a screenshot, whatever the section type,
    and "browser_mockup" for every other asset type. *)
Theorem selected_template_is_known section_type asset_type :
  let chosen := select_template section_type asset_type None in
  (∀ o, o ≠ "" → select_template section_type asset_type (Some o) = o) ∧
  select_template section_type asset_type (Some "") = chosen ∧
  is_Some (Renderer.template_map !! chosen) ∧
  (asset_type = "title_card" → chosen ∈ templates_of "kinetic") ∧
  (asset_type = "screenshot" → chosen ∈ templates_of "showcase") ∧
  (asset_type ≠ "title_card" → asset_type ≠ "screenshot" → chosen = "browser_mockup").
Proof.
  intros chosen.
  split; [intros o Ho; unfold select_template; rewrite given_Some by exact Ho;
          reflexivity|].
  split; [reflexivity|].
  assert (Hcases :
    (asset_type = "title_card" ∧
     chosen ∈ ["typewriter_reveal"; "neon_pulse"; "split_reveal"; "glitch_drop";
               "countdown_slam"]) ∨
    (asset_type = "screenshot" ∧
     chosen ∈ ["spotlight_zoom"; "browser_mockup"; "dashboard_reveal";
               "comparison_split"; "polaroid_drop"]) ∨
    (asset_type ≠ "title_card" ∧ asset_type ≠ "screenshot" ∧
     chosen = "browser_mockup")).
  { subst chosen. unfold select_template. rewrite given_None. cbv zeta.
    destruct (SECTION_TEMPLATE_MAP !! (section_type, asset_type)) as [v|] eqn:Hk; simpl.
    - apply template_lookup in Hk as [[-> Hv]|[-> Hv]].
      + left. split; [reflexivity|]. rewrite bool_decide_eq_true_2 by reflexivity.
        set_unfold in Hv. set_unfold. tauto.
      + right. left. split; [reflexivity|].
        rewrite bool_decide_eq_false_2 by discriminate. exact Hv.
    - case_bool_decide as Ht.
      + left. split; [exact Ht|]. set_solver.
      + destruct (decide (asset_type = "screenshot")) as [Hs|Hs].
        * right. left. split; [exact Hs|]. set_solver.
        * right. right. auto. }
  clearbody chosen.
  destruct Hcases as [[Ht Hc]|[[Ht Hc]|(Ht1 & Ht2 & ->)]].
  - split; [|split; [|split]].
    + set_unfold in Hc. repeat destruct Hc as [->|Hc]; try (eexists; reflexivity).
      destruct Hc.
    + intros _. rewrite kinetic_templates. set_unfold in Hc. set_unfold. tauto.
    + intros Hs. rewrite Ht in Hs. discriminate.
    + intros Hn. contradiction.
  - split; [|split; [|split]].
    + set_unfold in Hc. repeat destruct Hc as [->|Hc]; try (eexists; reflexivity).
      destruct Hc.
    + intros Hs. rewrite Ht in Hs. discriminate.
    + intros _. rewrite showcase_templates. set_unfold in Hc. set_unfold. tauto.
    + intros _ Hn. contradiction.
  - split; [eexists; reflexivity|]. split; [intros; contradiction|].
    split; [intros; contradiction|]. reflexivity.
Qed.

End SelectorFacts.

(** ** Sound effects *)

Section SfxMore.
Import Proc Sfx SfxTrack Engine.
Context {E : Env}.


Lemma bind_raise {A B} (m : M E A) (k : A → M E B) (st st' : PState E) exc :
  m st = (Raise exc, st') → (m ≫= k) st = (Raise exc, st').
Proof. intros H. unfold mbind, M_bind, Proc.bind. rewrite H. reflexivity. Qed.



Lemma exists_run path (st : PState E) :
  exists_ path st = (Ok (path_exists E (world st) path), st).
Proof. reflexivity. Qed.




Lemma cue_in_library asset name :
  Selector.given (cues asset).1 = Some name → is_Some (SFX_LIBRARY !! name).
Proof.
  unfold cues, TEMPLATE_SFX_MAP.
  match goal with
  | |- context [default ?dflt (list_to_map ?l !! ?k)] =>
      pose proof (default_lookup_in l dflt k) as Hin
  end.
  set (v := default _ _) in *. clearbody v. simpl in Hin. set_unfold in Hin.
  repeat (destruct Hin as [->|Hin];
          [simpl; intros [= <-] || discriminate; try (eexists; reflexivity)|]).
  destruct Hin.
Qed.

(** X14.  Whatever template an asset carries, also an unknown one or none,
    the cues chosen for it are sounds of [SFX_LIBRARY], the transition cue
    as well as the ambient one: the sound track never asks [generate_sfx]
    for a sound it does not know. *)
Theorem transition_cue_is_in_library asset name :
  (Selector.given (cues asset).1 = Some name → is_Some (SFX_LIBRARY !! name)) ∧
  ((cues asset).2 = Some name → is_Some (SFX_LIBRARY !! name)).
Proof.
  split; [apply cue_in_library|].
  unfold cues, TEMPLATE_SFX_MAP.
  match goal with
  | |- context [default ?dflt (list_to_map ?l !! ?k)] =>
      pose proof (default_lookup_in l dflt k) as Hin
  end.
  set (v := default _ _) in *. clearbody v. simpl in Hin. set_unfold in Hin.
  repeat (destruct Hin as [->|Hin];
          [simpl; intros [= <-] || discriminate; try (eexists; reflexivity)|]).
  destruct Hin.
Qed.







End SfxMore.

(** ** Instances of the further properties *)


Lemma scaled_canvas_even_and_large_witness :
  ∃ scale_w scale_h rest,
    Motion._build_motion_filter Demo.engine (Motion.mkPreset 1.0 1.08 0 0 0 0) 3 0.5
    = Proc.Lit "scale=" :: Proc.Int scale_w :: Proc.Lit ":" :: Proc.Int scale_h :: rest ∧
    (scale_w mod 2 = 0)%Z ∧ (1920 ≤ scale_w)%Z ∧ (1080 ≤ scale_h)%Z.
Proof.
  destruct (scaled_canvas_even_and_large Demo.engine (Motion.mkPreset 1.0 1.08 0 0 0 0)
              3 0.5) as (sw & sh & rest & Heq & Hw & _ & Hlw & Hlh).
  exists sw, sh, rest. split; [exact Heq|]. split; [exact Hw|]. split.
  - apply Hlw; [simpl; lra | simpl; lia].
  - apply Hlh; [simpl; lra | simpl; lia].
Defined.

Lemma unknown_atmosphere_is_none_witness :
  Motion.clip_filter Demo.engine (Motion.mkPreset 1.0 1.08 0 0 0 0) 3 "sparkle" 0.3
  = Motion._build_motion_filter Demo.engine (Motion.mkPreset 1.0 1.08 0 0 0 0) 3 0.3.
Proof.
  destruct (unknown_atmosphere_is_none (E := Demo.env) "sparkle" 3 0.3) as [_ H].
  refine (proj1 (H _ Demo.engine "f.png" "c.mp4" "static" (Demo.start []) _)).
  unfold MotionAuto.known_atmospheres. intros Hin. set_unfold in Hin.
  repeat destruct Hin as [Hin|Hin]; discriminate || done.
Defined.

Lemma atmosphere_intensity_clamped_witness :
  Motion._build_atmosphere_filter "flicker" 3 2.5
  = Motion._build_atmosphere_filter "flicker" 3 1.0 ∧
  Motion._build_atmosphere_filter "vhs_wobble" 3 0
  = Motion._build_atmosphere_filter "vhs_wobble" 10 0.05.
Proof.
  split.
  - apply (proj1 (atmosphere_intensity_clamped "flicker" 3 3 2.5)). lra.
  - apply (proj2 (atmosphere_intensity_clamped "vhs_wobble" 3 10 0)). lra.
Defined.

Lemma selected_motion_is_a_preset_witness :
  is_Some (Motion.MOTION_PRESETS !! Selector.select_motion "demo" "screenshot" None 3) ∧
  Selector.select_motion "demo" "title_card" None 3 = "static" ∧
  Selector.select_motion "demo" "screenshot" (Some "pendulum_sway") 3 = "pendulum_sway".
Proof.
  split; [|split].
  - apply (selected_motion_is_a_preset "demo" "screenshot" 3). simpl. lia.
  - refine (proj1 (proj2 (proj2 (selected_motion_is_a_preset "demo" "title_card" 3 _))) _);
      [simpl; lia | reflexivity].
  - refine (proj2 (proj2 (proj2 (selected_motion_is_a_preset "demo" "screenshot" 3 _))) _ _);
      [simpl; lia | discriminate].
Defined.

Lemma selected_atmosphere_is_known_witness :
  Selector.select_atmosphere "neon_pulse" (Some "flicker") = "flicker" ∧
  (Motion._build_atmosphere_filter (Selector.select_atmosphere "split_reveal" None) 3 0.3
   = []).
Proof.
  destruct (selected_atmosphere_is_known "neon_pulse" "intro" 3 0.3)
    as (_ & _ & _ & Ho & _).
  destruct (selected_atmosphere_is_known "split_reveal" "intro" 3 0.3)
    as (_ & _ & Hnil & _ & _).
  split.
  - apply Ho. discriminate.
  - apply Hnil. reflexivity.
Defined.

Lemma selected_template_is_known_witness :
  Selector.select_template "unheard_of" "title_card" None
    ∈ Selector.templates_of "kinetic" ∧
  Selector.select_template "intro" "generated" None = "browser_mockup" ∧
  Selector.select_template "intro" "screenshot" (Some "matrix_rain") = "matrix_rain".
Proof.
  pose proof (selected_template_is_known "unheard_of" "title_card") as H1.
  pose proof (selected_template_is_known "intro" "generated") as H2.
  pose proof (selected_template_is_known "intro" "screenshot") as H3.
  cbv zeta in H1, H2, H3.
  destruct H1 as (_ & _ & _ & Hk & _).
  destruct H2 as (_ & _ & _ & _ & _ & Hb).
  destruct H3 as (Ho & _).
  split; [apply Hk; reflexivity|].
  split; [apply Hb; discriminate|].
  apply Ho. discriminate.
Defined.

Lemma transition_cue_is_in_library_witness :
  is_Some (Sfx.SFX_LIBRARY !! "power_up").
Proof.
  apply (proj1 (transition_cue_is_in_library
           (Engine.mkEngineAsset (Demo.asset "s1" "title_card" "t.png") None
                                 (Some "neon_pulse")) "power_up")).
  reflexivity.
Defined.



(** ** Video assembly: the crossfade graph and the failures of ffmpeg *)

Section VideoMore.
Import Proc Video.
Context {E : Env}.

(** The labels of the loop of [_xfade] after [m] iterations. *)
Lemma xfade_loop_labels cfg clips m :
  (m ≤ length clips - 1)%nat →
  let s := foldl (xfade_step cfg clips) (mkXfadeLoop [] [Lit "[0:v]"] 0.0) (seq 1 m) in
  length (parts s) = m ∧
  prev s = (if m is O then [Lit "[0:v]"] else xf_label m) ∧
  ∀ i p, parts s !! i = Some p →
    xf_transition p = transition_type cfg ∧
    xf_prev p = (if i is O then [Lit "[0:v]"] else xf_label i) ∧
    xf_next p = (if (S i <? length clips - 1)%nat then xf_label (S i)
                 else [Lit "[vout]"]).
Proof.
  induction m as [|m IH]; intros Hm s.
  - subst s; simpl. split; [reflexivity|]. split; [reflexivity|].
    intros i p Hp. rewrite lookup_nil in Hp. discriminate.
  - destruct IH as (Hlen & Hprev & Hparts); [lia|].
    subst s. rewrite seq_S, foldl_snoc. simpl.
    set (s := foldl (xfade_step cfg clips) _ (seq 1 m)) in *.
    split; [rewrite length_app, Hlen; simpl; lia|].
    split; [reflexivity|].
    intros i p Hp.
    destruct (decide (i < m)%nat) as [Hi|Hi].
    + rewrite lookup_app_l in Hp by lia. apply Hparts, Hp.
    + rewrite lookup_app_r in Hp by lia. rewrite Hlen in Hp.
      destruct (i - m)%nat as [|k] eqn:Hk; simpl in Hp; [|discriminate].
      inversion Hp; subst p; simpl.
      assert (i = m) as -> by lia.
      split; [reflexivity|]. split; [exact Hprev|reflexivity].
Qed.

Lemma xfade_parts_length cfg clips :
  length (xfade_parts cfg clips) = (length clips - 1)%nat.
Proof.
  destruct (xfade_loop_labels cfg clips (length clips - 1)) as (H & _); [lia|].
  exact H.
Qed.

(** X17.  The filter graph [_xfade] writes is a chain: there is one
    transition less than there are clips; the first one reads input 0, every
    other one reads what the one before it wrote, labelled [xf] and its
    number; the last one writes [vout], the label the command maps. *)
Theorem xfade_graph_is_a_chain cfg clips :
  let graph := xfade_parts cfg clips in
  length graph = (length clips - 1)%nat ∧
  (∀ p, graph !! 0%nat = Some p → xf_prev p = [Lit "[0:v]"]) ∧
  (∀ i p q, graph !! i = Some p → graph !! S i = Some q →
     xf_next p = xf_label (S i) ∧ xf_prev q = xf_next p) ∧
  (∀ p, last graph = Some p → xf_next p = [Lit "[vout]"]) ∧
  (∀ i p, graph !! i = Some p →
     xf_index p = S i ∧ xf_transition p = transition_type cfg ∧
     xf_duration p = transition_duration cfg).
Proof.
  intros graph.
  destruct (xfade_loop_labels cfg clips (length clips - 1)) as (Hlen & _ & Hl); [lia|].
  destruct (xfade_loop_inv cfg clips (length clips - 1)) as (_ & _ & Hi); [lia|].
  fold (xfade_parts cfg clips) in Hlen, Hl, Hi. fold graph in Hlen, Hl, Hi.
  split; [exact Hlen|]. split; [|split; [|split]].
  - intros p Hp. apply (Hl 0%nat p Hp).
  - intros i p q Hp Hq.
    destruct (Hl i p Hp) as (_ & _ & Hn). destruct (Hl (S i) q Hq) as (_ & Hpq & _).
    apply lookup_lt_Some in Hq. rewrite Hlen in Hq.
    assert (Hlt : (S i <? length clips - 1)%nat = true) by (apply Nat.ltb_lt; lia).
    rewrite Hlt in Hn. rewrite Hn, Hpq. auto.
  - intros p Hp. rewrite last_lookup in Hp.
    destruct (Hl _ p Hp) as (_ & _ & Hn). rewrite Hn, Hlen.
    assert (Hge : (S (pred (length clips - 1)) <? length clips - 1)%nat = false).
    { apply Nat.ltb_ge. apply lookup_lt_Some in Hp. lia. }
    rewrite Hge. reflexivity.
  - intros i p Hp. destruct (Hl i p Hp) as (Ht & _). destruct (Hi i p Hp) as (Hx & Hd & _).
    auto.
Qed.



End VideoMore.

(** ** Video assembly: the stages *)

Section StageFacts.
Import Proc Video Engine Assembly.
Context {E : Env}.

Lemma ffmpeg_run args (st : PState E) :
  let proc := (run_process E (ffmpeg_cmd args) (world st)).1 in
  _ffmpeg args st
  = (if (returncode proc =? 0)%Z then Ok tt else Raise (ffmpeg_error proc),
     mkPState (run_process E (ffmpeg_cmd args) (world st)).2
              (trace st ++ [ffmpeg_cmd args]) (log st ++ [ffmpeg_debug args])).
Proof.
  unfold _ffmpeg. run_proc.
  destruct (run_process E (ffmpeg_cmd args) (world st)) as [proc w]. simpl.
  destruct (returncode proc =? 0)%Z; reflexivity.
Qed.

Lemma returns_ret {A} (P : A → Prop) a : P a → returns (E := E) P (mret a).
Proof. intros Ha st. left. exists a. split; [reflexivity|exact Ha]. Qed.

Lemma returns_bind {A B} (P : A → Prop) (Q : B → Prop) (m : M E A) (k : A → M E B) :
  returns P m → (∀ a, P a → returns Q (k a)) → returns Q (m ≫= k).
Proof.
  intros Hm Hk st. unfold mbind, M_bind, Proc.bind.
  destruct (Hm st) as [(a & Ha & HP)|(proc & Hrc & Hf)];
    destruct (m st) as [[a'|exc] st']; simpl in *; try discriminate.
  - inversion Ha; subst a'. apply (Hk a HP).
  - right. exists proc. split; [exact Hrc|]. inversion Hf. reflexivity.
Qed.

Lemma returns_weaken {A} (P Q : A → Prop) (m : M E A) :
  returns P m → (∀ a, P a → Q a) → returns Q m.
Proof.
  intros Hm HPQ st. destruct (Hm st) as [(a & Ha & HP)|Hf]; [left|right]; eauto.
Qed.

Lemma returns_ffmpeg args : returns (E := E) (λ _, True) (_ffmpeg args).
Proof.
  intros st. rewrite ffmpeg_run. simpl.
  destruct (Z.eqb_spec (returncode (run_process E (ffmpeg_cmd args) (world st)).1) 0).
  - left. exists tt. auto.
  - right. eexists. split; [eassumption|reflexivity].
Qed.

Lemma returns_exists path : returns (E := E) (λ _, True) (exists_ path).
Proof. intros st. left. eexists. split; [reflexivity|exact I]. Qed.

Lemma returns_copy src dst : returns (E := E) (λ _, True) (shutil_copy src dst).
Proof. intros st. left. exists tt. split; [reflexivity|exact I]. Qed.

Lemma returns_logger lvl msg : returns (E := E) (λ _, True) (logger lvl msg).
Proof. intros st. left. exists tt. split; [reflexivity|exact I]. Qed.

Lemma returns_duration path : returns (E := E) (λ _, True) (_duration path).
Proof. intros st. rewrite duration_run. left. eexists. split; [reflexivity|exact I]. Qed.

Lemma returns_xfade cfg clips stem :
  returns (E := E)
    (λ r, r = Sfx.path_join (assembly_dir cfg) (stem +:+ "_clips_concat.mp4"))
    (_xfade cfg clips stem).
Proof.
  unfold _xfade. eapply returns_bind; [apply returns_exists|]. intros cached _.
  destruct cached; [apply returns_ret; reflexivity|].
  set (out := Sfx.path_join (assembly_dir cfg) (stem +:+ "_clips_concat.mp4")).
  assert (Hgen : ∀ args, returns (E := E) (λ r, r = out) (_ffmpeg args ;; mret out)).
  { intros args. eapply returns_bind; [apply returns_ffmpeg|].
    intros _ _. apply returns_ret. reflexivity. }
  destruct clips as [|[p d] [|c clips]]; try apply Hgen.
  eapply returns_bind; [apply returns_copy|]. intros _ _. apply returns_ret. reflexivity.
Qed.

Lemma returns_trim_pad cfg src target out :
  returns (E := E) (λ _, True) (_trim_pad cfg src target out).
Proof.
  unfold _trim_pad. eapply returns_bind; [apply returns_duration|]. intros actual _.
  destruct (Num.ltb _ _); [apply returns_copy|].
  destruct (Num.gtb _ _); apply returns_ffmpeg.
Qed.

Lemma returns_img_to_clip cfg img d idx stem clip :
  returns (E := E) (λ _, True) (_img_to_clip cfg img d idx stem clip).
Proof.
  unfold _img_to_clip.
  assert (Hrender : returns (E := E) (λ _ : string, True)
    (cached ← exists_ (temp_path cfg (stem +:+ "_clip_" +:+ pad_04d idx +:+ ".mp4"));
     if cached : bool
     then mret (temp_path cfg (stem +:+ "_clip_" +:+ pad_04d idx +:+ ".mp4"))
     else _ffmpeg (img_args cfg img d
                     (temp_path cfg (stem +:+ "_clip_" +:+ pad_04d idx +:+ ".mp4"))) ;;
          mret (temp_path cfg (stem +:+ "_clip_" +:+ pad_04d idx +:+ ".mp4")))).
  { eapply returns_bind; [apply returns_exists|]. intros cached _.
    destruct cached; [apply returns_ret; exact I|].
    eapply returns_bind; [apply returns_ffmpeg|]. intros _ _. apply returns_ret. exact I. }
  destruct clip as [p|]; [|exact Hrender].
  eapply returns_bind; [apply returns_exists|]. intros rendered _.
  destruct rendered; [apply returns_ret; exact I|exact Hrender].
Qed.

Lemma returns_clips_loop cfg stem assets : ∀ i,
  returns (E := E)
    (λ clips, clips.*2 = clip_duration <$> assets)
    (clips_loop cfg stem i assets).
Proof.
  induction assets as [|a rest IH]; intros i; simpl.
  - apply returns_ret. reflexivity.
  - eapply returns_bind; [apply returns_img_to_clip|]. intros clip _.
    eapply returns_bind; [apply IH|]. intros clips Hclips.
    apply returns_ret. rewrite !fmap_cons. f_equal. exact Hclips.
Qed.

Lemma returns_build_video_track cfg assets total stem :
  returns (E := E) (λ r, r = temp_path cfg (stem +:+ "_video_track.mp4"))
    (_build_video_track cfg assets total stem).
Proof.
  unfold _build_video_track. eapply returns_bind; [apply returns_exists|].
  intros cached _. destruct cached; [apply returns_ret; reflexivity|].
  destruct assets as [|a rest].
  - unfold _black. eapply returns_bind; [apply returns_ffmpeg|].
    intros _ _. apply returns_ret. reflexivity.
  - eapply returns_bind; [apply returns_clips_loop|]. intros clips _.
    eapply returns_bind; [apply returns_xfade|]. intros concat _.
    eapply returns_bind; [apply returns_trim_pad|]. intros _ _.
    apply returns_ret. reflexivity.
Qed.

Lemma returns_mix_audio cfg narration d stem :
  returns (E := E) (λ r, r = temp_path cfg (stem +:+ "_audio_mixed.aac"))
    (_mix_audio cfg narration d stem).
Proof.
  unfold _mix_audio. eapply returns_bind; [apply returns_exists|].
  intros cached _. destruct cached; [apply returns_ret; reflexivity|].
  eapply returns_bind; [|intros _ _; apply returns_ret; reflexivity].
  instantiate (1 := λ _, True).
  destruct (bg_music_enabled cfg); [|apply returns_ffmpeg].
  destruct (Selector.given _); [|apply returns_ffmpeg].
  eapply returns_bind; [apply returns_exists|]. intros there _.
  destruct there; apply returns_ffmpeg.
Qed.

Lemma returns_mux cfg video audio out sub :
  returns (E := E) (λ _, True) (_mux cfg video audio out sub).
Proof.
  unfold _mux. destruct sub as [f|]; [|apply returns_ffmpeg].
  eapply returns_bind; [apply returns_exists|]. intros there _.
  destruct there; apply returns_ffmpeg.
Qed.

End StageFacts.

Lemma xfade_graph_is_a_chain_witness :
  let graph := Video.xfade_parts Demo.cfg [("a.mp4", 5.0); ("b.mp4", 5.0); ("c.mp4", 5.0)] in
  length graph = 2%nat ∧
  (∃ p q, graph !! 0%nat = Some p ∧ graph !! 1%nat = Some q ∧
          Video.xf_prev p = [Proc.Lit "[0:v]"] ∧
          Video.xf_prev q = Video.xf_next p ∧
          Video.xf_next q = [Proc.Lit "[vout]"]).
Proof.
  intros graph.
  pose proof (xfade_graph_is_a_chain Demo.cfg
                [("a.mp4", 5.0); ("b.mp4", 5.0); ("c.mp4", 5.0)]) as H.
  cbv zeta in H. fold graph in H.
  destruct H as (Hlen & Hfirst & Hchain & Hlast & _).
  split; [exact Hlen|].
  eexists _, _. split; [reflexivity|]. split; [reflexivity|].
  split; [apply Hfirst; reflexivity|].
  split; [apply (Hchain 0%nat); reflexivity|].
  apply Hlast. reflexivity.
Defined.

